(** * The inactive-account purger of the Raiden service bundle

    A shallow embedding of [build/purger/purger.py] and the properties of its
    refresh / probe / purge pass.

    Python values are modelled as follows.
    - [int] is unbounded, hence [Z]; [//] is [Z.div] (both round down).
    - [str] is [string]; [str.split(":")] and [str.startswith] are written out.
    - [dict] is an insertion-ordered association list with unique keys
      ([Dict.t]); the order matters because the purger iterates over the
      ledger and issues one remote call per entry.
    - the Matrix server is a state machine ([GMatrixHttpApi]) whose answers
      may depend on every call made before; calls are recorded as [event]s.
    - exceptions are a result type threaded through a small monad. *)

From Stdlib Require Import ZArith List String Ascii Bool Lia.
From Stdlib Require Import DecimalString.
Import ListNotations.

Local Open Scope string_scope.
Local Open Scope list_scope.
Local Open Scope Z_scope.

(* ------------------------------------------------------------------ *)
(** ** Python strings *)

Module PyStr.

(** [s.split(sep)] for a one-character separator: never empty, one more
    piece than there are separators. *)
Fixpoint split (sep : ascii) (s : string) : list string :=
  match s with
  | EmptyString => [EmptyString]
  | String c s' =>
      if Ascii.eqb c sep then EmptyString :: split sep s'
      else match split sep s' with
           | [] => [String c EmptyString]
           | w :: ws => String c w :: ws
           end
  end.

(** [s.startswith(p)] *)
Definition startswith (s p : string) : bool := String.prefix p s.

(** [k in s] for two strings: substring test. *)
Definition contains (s k : string) : bool :=
  match String.index 0 k s with Some _ => true | None => false end.

Fixpoint has_char (c : ascii) (s : string) : bool :=
  match s with
  | EmptyString => false
  | String c' s' => Ascii.eqb c' c || has_char c s'
  end.

End PyStr.

(* ------------------------------------------------------------------ *)
(** ** Python dictionaries keyed by strings *)

Module Dict.

Definition t (V : Type) : Type := list (string * V).

Section Ops.
Context {V : Type}.

(** [d.get(k)] *)
Fixpoint get (d : t V) (k : string) : option V :=
  match d with
  | [] => None
  | (k', v) :: d' => if String.eqb k' k then Some v else get d' k
  end.

(** [k in d] *)
Definition mem (d : t V) (k : string) : bool :=
  match get d k with Some _ => true | None => false end.

(** [d[k] = v]: an existing key keeps its position, a new key goes last. *)
Fixpoint set (d : t V) (k : string) (v : V) : t V :=
  match d with
  | [] => [(k, v)]
  | (k', v') :: d' =>
      if String.eqb k' k then (k', v) :: d' else (k', v') :: set d' k v
  end.

(** [d.pop(k, None)] *)
Fixpoint pop (d : t V) (k : string) : t V :=
  match d with
  | [] => []
  | (k', v) :: d' => if String.eqb k' k then d' else (k', v) :: pop d' k
  end.

(** [list(d.keys())] *)
Definition keys (d : t V) : list string := map fst d.

(** A Python dictionary holds every key once. *)
Definition wf (d : t V) : Prop := NoDup (keys d).

End Ops.

End Dict.

(* ------------------------------------------------------------------ *)
(** ** Exceptions, remote calls and the monad of a pass *)

Inductive exn : Type :=
| MatrixError
| KeyError
| IndexError
| TypeError
| ValueError
| AttributeError
| UnicodeDecodeError
| OSError.

Inductive Res (A : Type) : Type :=
| Ok (a : A)
| Raise (e : exn).
Arguments Ok {A} a.
Arguments Raise {A} e.

(** The body of a presence response: [presence] is always there,
    [last_active_ago] (milliseconds) may be missing. *)
Record PresenceResponse : Type := mkPresence {
  presence : string;
  last_active_ago : option Z
}.

(** What the pass does to the outside world, in the order it does it.
    A reply of [None] (or [false]) is a [MatrixError] raised by the call. *)
Inductive event : Type :=
| EvGetRoomId (room_alias : string) (reply : option string)
| EvGetMembers (room : string) (reply : option (list string))
| EvGetPresence (user_id : string) (reply : option PresenceResponse)
| EvDeactivate (user_id : string) (ok : bool)
| EvSleep.

(** The Matrix server seen through [GMatrixHttpApi]: each call answers from
    the server's current state and moves it.
    - [api_get_room_id a] is [api.get_room_id(a)];
    - [api_get_members r] is the ["members"] field of
      [api._send("GET", api_path="/_synapse/admin/v1", path=f"/rooms/{r}/members")];
    - [api_get_presence u] is [api.get_presence(u)];
    - [api_deactivate u] is
      [api._send("POST", f"/deactivate/{u}", content={"erase": True}, ...)]. *)
Record GMatrixHttpApi (World : Type) : Type := mkApi {
  api_netloc : string;  (* urlparse(api.base_url).netloc *)
  api_get_room_id : string -> World -> option string * World;
  api_get_members : string -> World -> option (list string) * World;
  api_get_presence : string -> World -> option PresenceResponse * World;
  api_deactivate : string -> World -> bool * World
}.
Arguments mkApi {World} _ _ _ _ _.
Arguments api_netloc {World} _.
Arguments api_get_room_id {World} _ _ _.
Arguments api_get_members {World} _ _ _.
Arguments api_get_presence {World} _ _ _.
Arguments api_deactivate {World} _ _ _.

(** What the code imports from the [raiden] package and from Python itself. *)
Record Imports : Type := mkImports {
  Networks : list Z;                           (* values of raiden.constants.Networks *)
  DISCOVERY_DEFAULT_ROOM : string;
  make_room_alias : Z -> string -> string;
  py_int : string -> option Z;                 (* int(s); None is ValueError *)
  py_str : Z -> string                         (* str(n) *)
}.

Module PassMonad.

Record Out (W A : Type) : Type := mkOut {
  res : Res A;
  evs : list event;
  wld : W
}.
Arguments mkOut {W A} res evs wld.
Arguments res {W A} _.
Arguments evs {W A} _.
Arguments wld {W A} _.

Definition M (W A : Type) : Type := W -> Out W A.

Definition ret {W A} (a : A) : M W A := fun w => mkOut (Ok a) [] w.

Definition raise {W A} (e : exn) : M W A := fun w => mkOut (Raise e) [] w.

Definition bind {W A B} (m : M W A) (f : A -> M W B) : M W B :=
  fun w =>
    let o := m w in
    match res o with
    | Ok a => let o' := f a (wld o) in mkOut (res o') (evs o ++ evs o') (wld o')
    | Raise e => mkOut (Raise e) (evs o) (wld o)
    end.

(** [try: m  except MatrixError: h] *)
Definition try_except_MatrixError {W A} (m : M W A) (h : M W A) : M W A :=
  fun w =>
    let o := m w in
    match res o with
    | Raise MatrixError =>
        let o' := h (wld o) in mkOut (res o') (evs o ++ evs o') (wld o')
    | _ => o
    end.

(** [try: m  finally: f], for an [f] that does not raise. *)
Definition try_finally {W A} (m : M W A) (f : M W unit) : M W A :=
  fun w =>
    let o := m w in
    let o' := f (wld o) in
    mkOut (res o) (evs o ++ evs o') (wld o').

(** [time.sleep(0.1)] *)
Definition sleep {W} : M W unit := fun w => mkOut (Ok tt) [EvSleep] w.

Definition of_option {W A} (e : exn) (o : option A) : M W A :=
  match o with Some a => ret a | None => raise e end.

End PassMonad.
Import PassMonad.

Declare Scope pass_scope.
Delimit Scope pass_scope with pass.
Notation "x <- m ;; k" := (bind m (fun x => k))
  (at level 61, m at next level, right associativity) : pass_scope.
Notation "' p <- m ;; k" := (bind m (fun p => k))
  (at level 61, p pattern, m at next level, right associativity) : pass_scope.
Local Open Scope pass_scope.

(* ------------------------------------------------------------------ *)
(** ** The purger *)

Definition USER_PURGING_THRESHOLD : Z := 2 * 24 * 60 * 60.

(** [UserActivityInfo]: the ledger. *)
Record UserActivityInfo : Type := mkInfo {
  last_update : Z;
  network_to_users : Dict.t (Dict.t Z)
}.

Record RoomInfo : Type := mkRoomInfo {
  room_id : string;
  alias : string;
  server_name : string
}.

Definition local_room_alias (r : RoomInfo) : string :=
  "#" ++ alias r ++ ":" ++ server_name r.

Section Purger.

Context {World : Type}.
Variable api : GMatrixHttpApi World.
Variable imp : Imports.

(** *** Remote calls, raising [MatrixError] as the client does *)

Definition call_get_room_id (a : string) : M World string :=
  fun w =>
    let (r, w') := api_get_room_id api a w in
    mkOut (match r with Some i => Ok i | None => Raise MatrixError end)
          [EvGetRoomId a r] w'.

Definition call_get_members (room : string) : M World (list string) :=
  fun w =>
    let (r, w') := api_get_members api room w in
    mkOut (match r with Some ms => Ok ms | None => Raise MatrixError end)
          [EvGetMembers room r] w'.

Definition call_get_presence (u : string) : M World PresenceResponse :=
  fun w =>
    let (r, w') := api_get_presence api u w in
    mkOut (match r with Some p => Ok p | None => Raise MatrixError end)
          [EvGetPresence u r] w'.

Definition call_deactivate (u : string) : M World unit :=
  fun w =>
    let (ok, w') := api_deactivate api u w in
    mkOut (if ok then Ok tt else Raise MatrixError) [EvDeactivate u ok] w'.

(** *** [get_discovery_room] *)

Definition discovery_room_alias (network_value : Z) : string :=
  make_room_alias imp network_value (DISCOVERY_DEFAULT_ROOM imp).

Definition get_discovery_room (network_value : Z) : M World (option RoomInfo) :=
  let server := api_netloc api in
  let discovery_room_alias := discovery_room_alias network_value in
  let local_room_alias :=
    String.append "#" (String.append discovery_room_alias (String.append ":" server)) in
  try_except_MatrixError
    (room_id <- call_get_room_id local_room_alias ;;
     ret (Some (mkRoomInfo room_id discovery_room_alias server)))
    (ret None).

(** *** [_fetch_new_members_for_network] *)

(** The list comprehension over [response["members"]]:
    [member.split(":")[1] == server_name and not member.startswith("@admin")].
    A member without a colon makes [[1]] raise [IndexError]. *)
Fixpoint room_members_of (server_name : string) (members : list string)
  : Res (list string) :=
  match members with
  | [] => Ok []
  | member :: rest =>
      match nth_error (PyStr.split ":" member) 1 with
      | None => Raise IndexError
      | Some home =>
          match room_members_of server_name rest with
          | Raise e => Raise e
          | Ok kept =>
              if String.eqb home server_name && negb (PyStr.startswith member "@admin")
              then Ok (member :: kept) else Ok kept
          end
      end
  end.

(** [for user_id in room_members: if user_id not in user_activity: ...] *)
Fixpoint add_new_members (room_members : list string) (user_activity : Dict.t Z)
    (current_time : Z) : Dict.t Z :=
  match room_members with
  | [] => user_activity
  | user_id :: rest =>
      add_new_members rest
        (if Dict.mem user_activity user_id then user_activity
         else Dict.set user_activity user_id
                (current_time - USER_PURGING_THRESHOLD - 1))
        current_time
  end.

Definition _fetch_new_members_for_network (user_activity : Dict.t Z)
    (discovery_room : RoomInfo) (current_time : Z) : M World (Dict.t Z) :=
  try_except_MatrixError
    (members <- call_get_members (room_id discovery_room) ;;
     let server_name := api_netloc api in
     match room_members_of server_name members with
     | Raise e => raise e
     | Ok room_members => ret (add_new_members room_members user_activity current_time)
     end)
    (ret user_activity).

(** *** [_update_user_activity_for_network] *)

Definition possible_candidates (user_activity : Dict.t Z) (deadline : Z) : list string :=
  map fst (filter (fun '(_, last_seen) => last_seen <? deadline) user_activity).

(** [response["last_active_ago"] // 1000], or the default when it is missing. *)
Definition last_active_ago_of (response : PresenceResponse) : Z :=
  match last_active_ago response with
  | Some ms => ms / 1000
  | None => USER_PURGING_THRESHOLD + 1
  end.

(** One turn of the loop over [possible_candidates]. *)
Definition probe_user (current_time deadline : Z) (user_id : string)
    (st : Dict.t Z * list string) : M World (Dict.t Z * list string) :=
  let '(user_activity, due_users) := st in
  try_finally
    (try_except_MatrixError
       (response <- call_get_presence user_id ;;
        let last_active_ago := last_active_ago_of response in
        let presence := presence response in
        let last_seen := current_time - last_active_ago in
        let user_activity := Dict.set user_activity user_id last_seen in
        match Dict.get user_activity user_id with
        | None => raise KeyError
        | Some stored =>
            if (stored <? deadline) && String.eqb presence "offline"
            then ret (user_activity, due_users ++ [user_id])
            else ret (user_activity, due_users)
        end)
       (ret (user_activity, due_users)))
    sleep.

Fixpoint probe_loop (current_time deadline : Z) (candidates : list string)
    (st : Dict.t Z * list string) : M World (Dict.t Z * list string) :=
  match candidates with
  | [] => ret st
  | user_id :: rest =>
      st' <- probe_user current_time deadline user_id st ;;
      probe_loop current_time deadline rest st'
  end.

(** Returns the segment as the loop left it together with [due_users]. *)
Definition _update_user_activity_for_network (user_activity : Dict.t Z)
    (current_time : Z) : M World (Dict.t Z * list string) :=
  let deadline := current_time - USER_PURGING_THRESHOLD in
  let possible_candidates := possible_candidates user_activity deadline in
  probe_loop current_time deadline possible_candidates (user_activity, []).

(** *** [update_user_activity] *)

(** One turn of the loop over [network_to_users.items()]: the segment after
    the turn, and the due list when the turn got as far as storing one. *)
Definition probe_network (current_time : Z) (user_activity : Dict.t Z)
  : M World (Dict.t Z * option (list string)) :=
  '(user_activity, due) <- _update_user_activity_for_network user_activity current_time ;;
  ret (user_activity, Some due).

Definition update_network (fetch_new_members : bool) (current_time : Z)
    (network_key : string) (user_activity : Dict.t Z)
  : M World (Dict.t Z * option (list string)) :=
  let probe := probe_network current_time in
  if fetch_new_members then
    network_value <- of_option ValueError (py_int imp network_key) ;;
    discovery_room <- get_discovery_room network_value ;;
    match discovery_room with
    | None => ret (user_activity, None)                       (* continue *)
    | Some discovery_room =>
        user_activity <-
          _fetch_new_members_for_network user_activity discovery_room current_time ;;
        probe user_activity
    end
  else probe user_activity.

Fixpoint update_networks (fetch_new_members : bool) (current_time : Z)
    (items : Dict.t (Dict.t Z)) (network_to_due_users : Dict.t (list string))
  : M World (Dict.t (Dict.t Z) * Dict.t (list string)) :=
  match items with
  | [] => ret ([], network_to_due_users)
  | (network_key, user_activity) :: rest =>
      '(user_activity, due) <-
        update_network fetch_new_members current_time network_key user_activity ;;
      let network_to_due_users :=
        match due with
        | Some due => Dict.set network_to_due_users network_key due
        | None => network_to_due_users
        end in
      '(rest, network_to_due_users) <-
        update_networks fetch_new_members current_time rest network_to_due_users ;;
      ret ((network_key, user_activity) :: rest, network_to_due_users)
  end.

Definition fetch_new_members_due (global_user_activity : UserActivityInfo)
    (current_time : Z) : bool :=
  last_update global_user_activity <? current_time - USER_PURGING_THRESHOLD.

(** [current_time] is the [int(time.time())] read on entry. *)
Definition update_user_activity (global_user_activity : UserActivityInfo)
    (current_time : Z) : M World (UserActivityInfo * Dict.t (list string)) :=
  let last_user_activity_update := last_update global_user_activity in
  let network_to_users := network_to_users global_user_activity in
  let fetch_new_members :=
    last_user_activity_update <? current_time - USER_PURGING_THRESHOLD in
  let global_user_activity :=
    if fetch_new_members then mkInfo current_time network_to_users
    else global_user_activity in
  '(network_to_users, network_to_due_users) <-
    update_networks fetch_new_members current_time network_to_users [] ;;
  ret (mkInfo (last_update global_user_activity) network_to_users,
       network_to_due_users).

(** *** [_purge_inactive_users_for_network] and [purge_inactive_users] *)

(** One turn of the loop over [due_users].  [user_activity[user_id]] is
    read for the log line before the remote call. *)
Definition purge_user (user_id : string) (user_activity : Dict.t Z)
  : M World (Dict.t Z) :=
  try_finally
    (try_except_MatrixError
       (_ <- of_option KeyError (Dict.get user_activity user_id) ;;
        _ <- call_deactivate user_id ;;
        ret (Dict.pop user_activity user_id))
       (ret user_activity))
    sleep.

Fixpoint _purge_inactive_users_for_network (user_activity : Dict.t Z)
    (due_users : list string) : M World (Dict.t Z) :=
  match due_users with
  | [] => ret user_activity
  | user_id :: rest =>
      user_activity <- purge_user user_id user_activity ;;
      _purge_inactive_users_for_network user_activity rest
  end.

Fixpoint purge_networks (network_to_users : Dict.t (Dict.t Z))
    (network_to_due_users : Dict.t (list string)) : M World (Dict.t (Dict.t Z)) :=
  match network_to_due_users with
  | [] => ret network_to_users
  | (network_key, due_users) :: rest =>
      user_activity <- of_option KeyError (Dict.get network_to_users network_key) ;;
      user_activity <- _purge_inactive_users_for_network user_activity due_users ;;
      purge_networks (Dict.set network_to_users network_key user_activity) rest
  end.

Definition purge_inactive_users (global_user_activity : UserActivityInfo)
    (network_to_due_users : Dict.t (list string)) : M World UserActivityInfo :=
  network_to_users <-
    purge_networks (network_to_users global_user_activity) network_to_due_users ;;
  ret (mkInfo (last_update global_user_activity) network_to_users).

(** *** [run_user_purger] *)

Definition run_user_purger (global_user_activity : UserActivityInfo)
    (current_time : Z) : M World UserActivityInfo :=
  '(global_user_activity, due_users) <-
    update_user_activity global_user_activity current_time ;;
  purge_inactive_users global_user_activity due_users.

End Purger.

Arguments call_get_room_id {World} api a _.
Arguments call_get_members {World} api room _.
Arguments call_get_presence {World} api u _.
Arguments call_deactivate {World} api u _.

(* ------------------------------------------------------------------ *)
(** ** Concrete servers and imports, for running the model *)

Module Examples.

(** [str(n)] and [int(s)] on plain decimal numerals. *)
Definition decimal_str (n : Z) : string := NilZero.string_of_int (Z.to_int n).
Definition decimal_int (s : string) : option Z :=
  match s with
  | EmptyString => None
  | _ => option_map Z.of_int (NilZero.int_of_string s)
  end.

(** A sample instance of the imports, for running the model: six network
    ids; aliases [raiden_<chain id>_discovery] (the [raiden] package puts
    the name of a known chain in place of its id); [int] and [str] on plain
    decimal numerals only (Python's [int] also accepts blanks, a [+] sign
    and underscores).  The theorems are stated for any [Imports]. *)
Definition raiden : Imports :=
  mkImports [1; 3; 4; 5; 42; 627] "discovery"
    (fun chain_id suffix =>
       String.append "raiden_" (String.append (decimal_str chain_id)
                                  (String.append "_" suffix)))
    decimal_int decimal_str.

(** [GMatrixHttpApiTest] of [tests/utils.py]: presence is answered from two
    tables, every [_send] answers [{"members": []}], room ids are drawn at
    random (here: taken from the world).  The tests pass [server_name] as
    the base url; [urlparse] is not modelled, and [server_name] is taken as
    the netloc as well. *)
Definition GMatrixHttpApiTest (server_name : string)
    (user_presence activity_change : Dict.t Z) : GMatrixHttpApi (list string) :=
  mkApi server_name
    (fun _ w =>
       match w with
       | [] => (Some (String.append "!aaaaaaaaaa:" server_name), [])
       | r :: w' => (Some (String.append "!" (String.append r (String.append ":" server_name))), w')
       end)
    (fun _ w => (Some [], w))
    (fun user_id w =>
       match Dict.get activity_change user_id with
       | Some ago => (Some (mkPresence "online" (Some (ago * 1000))), w)
       | None =>
           match Dict.get user_presence user_id with
           | Some ago => (Some (mkPresence "offline" (Some (ago * 1000))), w)
           | None => (None, w)
           end
       end)
    (fun _ w => (true, w)).

(** A server described by four tables; whatever is not listed fails. *)
Definition table_server (server_name : string)
    (rooms : Dict.t string) (members : Dict.t (list string))
    (presences : Dict.t PresenceResponse) (deactivatable : list string)
  : GMatrixHttpApi unit :=
  mkApi server_name
    (fun a w => (Dict.get rooms a, w))
    (fun r w => (Dict.get members r, w))
    (fun u w => (Dict.get presences u, w))
    (fun u w => (existsb (String.eqb u) deactivatable, w)).

(** A small deployment: one discovery room with two local accounts, an
    admin account and a remote account; [@A] is offline and idle, [@B] is
    online, nothing is known about [@D]. *)
Definition srv : GMatrixHttpApi unit :=
  table_server "srv"
    [("#raiden_1_discovery:srv", "!r1:srv")]
    [("!r1:srv", ["@A:srv"; "@B:srv"; "@admin:srv"; "@C:other"])]
    [("@A:srv", mkPresence "offline" None);
     ("@B:srv", mkPresence "online" (Some 5000))]
    ["@A:srv"].

Definition now_ex : Z := 1000000.

(** A segment with an idle offline account, an account that came back,
    one the server fails on, and a recently seen one. *)
Definition segment_ex : Dict.t Z :=
  [("@A:srv", 0); ("@B:srv", 10); ("@D:srv", 20); ("@E:srv", 999990)].

(** The same server with no discovery room at all. *)
Definition srv_no_rooms : GMatrixHttpApi unit :=
  table_server "srv" [] []
    [("@A:srv", mkPresence "offline" None);
     ("@B:srv", mkPresence "online" (Some 5000))]
    ["@A:srv"].

(** A ledger whose last refresh is long ago, with one known account. *)
Definition ledger_stale : UserActivityInfo :=
  mkInfo 0 [("1", [("@A:srv", 0)])].

(** The same ledger refreshed just now. *)
Definition ledger_fresh : UserActivityInfo :=
  mkInfo now_ex [("1", [("@A:srv", 0)])].

Definition room_1 : RoomInfo := mkRoomInfo "!r1:srv" "raiden_1_discovery" "srv".

(** A server whose name carries a port, with one local member. *)
Definition srv_port : GMatrixHttpApi unit :=
  table_server "srv:8448" []
    [("!r1:srv:8448", ["@alice:srv:8448"])] [] [].

Definition room_port : RoomInfo :=
  mkRoomInfo "!r1:srv:8448" "raiden_1_discovery" "srv:8448".

(** A server with an ordinary account whose name starts like the admin's. *)
Definition srv_administrator : GMatrixHttpApi unit :=
  table_server "srv" [] [("!r1:srv", ["@administrator:srv"])] [] [].


(** The test server with one idle account and one that came back. *)
Definition test_srv : GMatrixHttpApi (list string) :=
  GMatrixHttpApiTest "srv" [("@A:srv", 200000); ("@B:srv", 200000)] [("@B:srv", 5)].

End Examples.

(* ------------------------------------------------------------------ *)
(** ** Loading the ledger: the first half of [purge] *)

(** What [json.loads] returns. *)
#[warnings="-register-all"]
Inductive json : Type :=
| JNull
| JBool (b : bool)
| JInt (n : Z)
| JFloat (literal : string)
| JStr (s : string)
| JList (items : list json)
| JDict (members : list (string * json)).

(** What [json.loads(USER_ACTIVITY_PATH.read_text())] does. *)
Inductive ledger_file : Type :=
| FileNotFound                 (* read_text raises FileNotFoundError *)
| Unreadable (e : exn)         (* read_text raises something else *)
| NotJSON                      (* json.loads raises JSONDecodeError *)
| Document (j : json).         (* json.loads returns j *)

Module PyJson.

(** [j[k]] for a string [k] *)
Definition getitem (j : json) (k : string) : Res json :=
  match j with
  | JDict d => match Dict.get d k with Some v => Ok v | None => Raise KeyError end
  | _ => Raise TypeError
  end.

(** [k in j] for a string [k] *)
Definition contains (j : json) (k : string) : Res bool :=
  match j with
  | JDict d => Ok (Dict.mem d k)
  | JList l =>
      Ok (existsb (fun x => match x with JStr s => String.eqb s k | _ => false end) l)
  | JStr s => Ok (PyStr.contains s k)
  | _ => Raise TypeError
  end.

(** [j[k] = v] for a string [k] *)
Definition setitem (j : json) (k : string) (v : json) : Res json :=
  match j with
  | JDict d => Ok (JDict (Dict.set d k v))
  | _ => Raise TypeError
  end.

Fixpoint traverse {A B} (f : A -> option B) (l : list A) : option (list B) :=
  match l with
  | [] => Some []
  | a :: l' =>
      match f a, traverse f l' with
      | Some b, Some bs => Some (b :: bs)
      | _, _ => None
      end
  end.

(** The document read as the [Dict[str, int]] of one network. *)
Definition as_user_activity (j : json) : option (Dict.t Z) :=
  match j with
  | JDict d =>
      traverse (fun '(k, v) => match v with JInt n => Some (k, n) | _ => None end) d
  | _ => None
  end.

(** The document read as a [UserActivityInfo], when it is one. *)
Definition as_UserActivityInfo (j : json) : option UserActivityInfo :=
  match j with
  | JDict d =>
      match Dict.get d "last_update", Dict.get d "network_to_users" with
      | Some (JInt n), Some (JDict nets) =>
          match traverse (fun '(k, v) =>
                            match as_user_activity v with
                            | Some ua => Some (k, ua)
                            | None => None
                            end) nets with
          | Some nets => Some (mkInfo n nets)
          | None => None
          end
      | _, _ => None
      end
  | _ => None
  end.

(** The [UserActivityInfo] as [json.dumps] writes it. *)
Definition of_user_activity (ua : Dict.t Z) : json :=
  JDict (map (fun '(u, n) => (u, JInt n)) ua).

Definition of_networks (nets : Dict.t (Dict.t Z)) : Dict.t json :=
  map (fun '(k, ua) => (k, of_user_activity ua)) nets.

Definition of_UserActivityInfo (g : UserActivityInfo) : json :=
  JDict [("last_update", JInt (last_update g));
         ("network_to_users", JDict (of_networks (network_to_users g)))].

End PyJson.

Section Purge.

Context {World : Type}.
Variable api : GMatrixHttpApi World.
Variable imp : Imports.

(** Lines 89-99: the default, replaced by the file when it loads.
    [now0] is the [int(time.time())] read there. *)
Definition load_user_activity (now0 : Z) (file : ledger_file) : Res json :=
  let global_user_activity :=
    JDict [("last_update", JInt (now0 - USER_PURGING_THRESHOLD - 1));
           ("network_to_users", JDict [])] in
  match file with
  | Document j => Ok j
  | NotJSON => Ok global_user_activity
  | FileNotFound => Ok global_user_activity
  | Unreadable e => Raise e
  end.

(** Lines 102-105, one turn: on the untyped document, as Python runs it. *)
Definition add_network (global_user_activity : json) (network : Z) : Res json :=
  match PyJson.getitem global_user_activity "network_to_users" with
  | Raise e => Raise e
  | Ok users =>
      match PyJson.contains users (py_str imp network) with
      | Raise e => Raise e
      | Ok true => Ok global_user_activity                       (* continue *)
      | Ok false =>
          match PyJson.setitem users (py_str imp network) (JDict []) with
          | Raise e => Raise e
          | Ok users => PyJson.setitem global_user_activity "network_to_users" users
          end
      end
  end.

Fixpoint add_networks (global_user_activity : json) (networks : list Z) : Res json :=
  match networks with
  | [] => Ok global_user_activity
  | network :: rest =>
      match add_network global_user_activity network with
      | Raise e => Raise e
      | Ok g => add_networks g rest
      end
  end.

(** Lines 88-110 of [purge]: load, add the networks, run the pass; the
    credentials, the login and the restart of containers in the [finally]
    block do not touch the ledger and are left out.  The
    result is what is written back.  [None]: the document loaded and got
    through the loop over [Networks] but is not a [UserActivityInfo]; what
    the pass does with such a value is outside this model. *)
Definition purge (now0 current_time : Z) (file : ledger_file) (w : World)
  : option (Out World UserActivityInfo) :=
  match load_user_activity now0 file with
  | Raise e => Some (mkOut (Raise e) [] w)
  | Ok g =>
      match add_networks g (Networks imp) with
      | Raise e => Some (mkOut (Raise e) [] w)
      | Ok g =>
          match PyJson.as_UserActivityInfo g with
          | Some g => Some (run_user_purger api imp g current_time w)
          | None => None
          end
      end
  end.

End Purge.

(* ------------------------------------------------------------------ *)
(** ** Notions used to state the properties *)

(** The accounts whose presence was asked for, in order. *)
Fixpoint probed_users (l : list event) : list string :=
  match l with
  | [] => []
  | EvGetPresence u _ :: l' => u :: probed_users l'
  | _ :: l' => probed_users l'
  end.

(** The accounts whose deactivation was requested, in order. *)
Fixpoint deactivated_users (l : list event) : list string :=
  match l with
  | [] => []
  | EvDeactivate u _ :: l' => u :: deactivated_users l'
  | _ :: l' => deactivated_users l'
  end.

(** The pass asked for a room's member list: a membership sync. *)
Definition is_sync (e : event) : bool :=
  match e with EvGetMembers _ _ => true | _ => false end.

(** The pass looked up a discovery room or asked for a member list. *)
Definition is_discovery (e : event) : bool :=
  match e with EvGetRoomId _ _ | EvGetMembers _ _ => true | _ => false end.

Definition sync_calls (l : list event) : list event := filter is_sync l.
Definition discovery_calls (l : list event) : list event := filter is_discovery l.

(** An account is a deletion candidate at [now]. *)
Definition candidate (user_activity : Dict.t Z) (now : Z) (user_id : string) : Prop :=
  exists last_seen,
    Dict.get user_activity user_id = Some last_seen /\
    last_seen < now - USER_PURGING_THRESHOLD.

(** Every network segment, and the ledger itself, holds each key once. *)
Definition ledger_wf (g : UserActivityInfo) : Prop :=
  Dict.wf (network_to_users g) /\
  Forall (fun kv => Dict.wf (snd kv)) (network_to_users g).

(** Every member id the server lists has the form [localpart:domain]. *)
Definition members_have_colon {World} (api : GMatrixHttpApi World) : Prop :=
  forall room w ms,
    fst (api_get_members api room w) = Some ms ->
    Forall (fun m => PyStr.has_char ":" m = true) ms.

(** Every account of the first segment is an account of the second. *)
Definition accounts_within (ua ua' : Dict.t Z) : Prop :=
  forall u, In u (Dict.keys ua) -> In u (Dict.keys ua').

(** The typed counterpart of the loop over [Networks] in [purge]: every
    network without a segment gets an empty one. *)
Definition with_networks (imp : Imports) (nets : Dict.t (Dict.t Z))
  : Dict.t (Dict.t Z) :=
  fold_left (fun d n => if Dict.mem d (py_str imp n) then d
                        else Dict.set d (py_str imp n) [])
            (Networks imp) nets.

(** The alias under which the discovery room of a network is looked up. *)
Definition lookup_alias {World} (api : GMatrixHttpApi World) (imp : Imports)
    (network_value : Z) : string :=
  String.append "#"
    (String.append (discovery_room_alias imp network_value)
       (String.append ":" (api_netloc api))).

(** A Matrix id [@localpart:domain]: the domain is what follows the first
    colon. *)
Fixpoint after_first_colon (s : string) : option string :=
  match s with
  | EmptyString => None
  | String c s' => if Ascii.eqb c ":" then Some s' else after_first_colon s'
  end.

(** Following the spec's words, "homed on the local server": the domain of
    the member's id is the server's name. *)
Definition homed_on (server_name member : string) : bool :=
  match after_first_colon member with
  | Some domain => String.eqb domain server_name
  | None => false
  end.

(** The filter of [_fetch_new_members_for_network] on one member. *)
Definition is_room_member (server_name member : string) : bool :=
  match nth_error (PyStr.split ":" member) 1 with
  | Some home => String.eqb home server_name && negb (PyStr.startswith member "@admin")
  | None => false
  end.

(** What one presence reply does to the segment and the due list. *)
Definition probe_step (current_time deadline : Z) (st : Dict.t Z * list string)
    (ur : string * option PresenceResponse) : Dict.t Z * list string :=
  match snd ur with
  | None => st
  | Some response =>
      let last_seen := current_time - last_active_ago_of response in
      (Dict.set (fst st) (fst ur) last_seen,
       if (last_seen <? deadline) && String.eqb (presence response) "offline"
       then snd st ++ [fst ur] else snd st)
  end.

(** The presence events of a list, as (account, reply) pairs. *)
Fixpoint presence_replies (l : list event) : list (string * option PresenceResponse) :=
  match l with
  | [] => []
  | EvGetPresence u r :: l' => (u, r) :: presence_replies l'
  | _ :: l' => presence_replies l'
  end.

(** Every presence query and every deactivation request is directly
    followed by a [time.sleep]. *)
Fixpoint paced (l : list event) : bool :=
  match l with
  | [] => true
  | EvGetPresence _ _ :: l' | EvDeactivate _ _ :: l' =>
      match l' with
      | EvSleep :: _ => paced l'
      | _ => false
      end
  | _ :: l' => paced l'
  end.

(* ------------------------------------------------------------------ *)
(** ** Restarting the containers: the [finally] block of [purge] *)

(** What [json.loads(requests.get(url).text)["all_servers"]] does. *)
Inductive whitelist_fetch : Type :=
| FetchCaught                   (* RequestException, JSONDecodeError or KeyError *)
| FetchRaises (e : exn)         (* any other exception *)
| Fetched (all_servers : list string).

(** A container as the block sees it.
    - [container_status] is [attrs["State"]["Status"]];
    - [container_labels] is [attrs["Config"]["Labels"]];
    - [container_whitelist] is what evaluating
      [yaml.safe_load(exec_run(["cat", SYNAPSE_CONFIG_PATH]).output)["federation_domain_whitelist"]]
      gives: the value ([None] for a YAML null) or the exception raised;
    - [container_restart] is the exception [restart(timeout=30)] raises,
      if it raises. *)
Record Container : Type := mkContainer {
  container_name : string;
  container_status : string;
  container_labels : Dict.t string;
  container_whitelist : Res (option (list string));
  container_restart : option exn
}.

(** [container.attrs["Config"]["Labels"].get(docker_restart_label)] is truthy *)
Definition label_set (c : Container) (docker_restart_label : string) : bool :=
  match Dict.get (container_labels c) docker_restart_label with
  | Some EmptyString => false
  | Some _ => true
  | None => false
  end.

(** [local_whitelist and remote_whitelist == local_whitelist] *)
Definition whitelist_unchanged (remote_whitelist : list string)
    (local_whitelist : option (list string)) : bool :=
  match local_whitelist with
  | Some ((_ :: _) as l) =>
      if list_eq_dec string_dec remote_whitelist l then true else false
  | _ => false
  end.

(** The container takes part: it runs and carries the label. *)
Definition restart_candidate (docker_restart_label : string) (c : Container) : bool :=
  String.eqb (container_status c) "running" && label_set c docker_restart_label.

(** The loop over [client.containers.list()]: the names of the containers
    restarted, in order, and the exception that ended the loop, if any. *)
Fixpoint restart_loop (docker_restart_label : string) (remote_whitelist : list string)
    (containers : list Container) : list string * option exn :=
  match containers with
  | [] => ([], None)
  | container :: rest =>
      let restart :=
        match container_restart container with
        | Some e => ([], Some e)
        | None =>
            let '(restarted, e) :=
              restart_loop docker_restart_label remote_whitelist rest in
            (container_name container :: restarted, e)
        end in
      if negb (String.eqb (container_status container) "running")
         || negb (label_set container docker_restart_label)
      then restart_loop docker_restart_label remote_whitelist rest       (* continue *)
      else
        match container_whitelist container with
        | Ok local_whitelist =>
            if whitelist_unchanged remote_whitelist local_whitelist
            then restart_loop docker_restart_label remote_whitelist rest (* continue *)
            else restart
        | Raise KeyError => restart
        | Raise IndexError => restart
        | Raise e => ([], Some e)
        end
  end.

(** Lines 112-154.  [default_url] is
    [DEFAULT_MATRIX_KNOWN_SERVERS[Environment.PRODUCTION]], [fetch] the
    request for the remote whitelist, [containers] what
    [docker.from_env().containers.list()] gives. *)
Definition restart_containers (default_url : string) (fetch : string -> whitelist_fetch)
    (docker_restart_label : option string) (url_known_federation_servers : string)
    (containers : Res (list Container)) : list string * option exn :=
  match docker_restart_label with
  | None => ([], None)
  | Some EmptyString => ([], None)
  | Some label =>
      let url :=
        match url_known_federation_servers with
        | EmptyString => default_url
        | _ => url_known_federation_servers
        end in
      let run remote_whitelist :=
        match containers with
        | Raise e => ([], Some e)
        | Ok containers => restart_loop label remote_whitelist containers
        end in
      match fetch url with
      | FetchRaises e => ([], Some e)
      | FetchCaught => run []
      | Fetched all_servers => run all_servers
      end
  end.

Module RestartExamples.

(** A running synapse container with the label and a two-server whitelist. *)
Definition synapse : Container :=
  mkContainer "synapse" "running" [("purge_restart", "1")]
    (Ok (Some ["a.example"; "b.example"])) None.

(** A running container without the label. *)
Definition database : Container :=
  mkContainer "db" "running" [] (Raise KeyError) None.

(** A labelled container that is not running. *)
Definition stopped : Container :=
  mkContainer "old" "exited" [("purge_restart", "1")]
    (Ok (Some ["a.example"])) None.

(** A labelled, running container whose config has no whitelist. *)
Definition bare : Container :=
  mkContainer "bare" "running" [("purge_restart", "1")] (Raise KeyError) None.

Definition containers : list Container := [synapse; database; stopped; bare].

(** A whitelist server that cannot be reached. *)
Definition unreachable (url : string) : whitelist_fetch := FetchCaught.

(** A whitelist server that lists the two servers of [synapse]. *)
Definition same_list (url : string) : whitelist_fetch :=
  Fetched ["a.example"; "b.example"].

End RestartExamples.

(* ------------------------------------------------------------------ *)
(** ** Facts about dictionaries *)

Module DictFacts.
Import Dict.

Section Facts.
Context {V : Type}.
Implicit Types (d : Dict.t V) (k : string) (v : V).

Lemma get_set_same d k v : get (set d k v) k = Some v.
Proof.
  induction d as [|[k' v'] d IH]; simpl.
  - now rewrite String.eqb_refl.
  - destruct (String.eqb k' k) eqn:E; simpl; rewrite E; auto.
Qed.

Lemma get_set_other d k k' v : k <> k' -> get (set d k v) k' = get d k'.
Proof.
  intros Hne. induction d as [|[k0 v0] d IH]; simpl.
  - destruct (String.eqb_spec k k'); congruence.
  - destruct (String.eqb_spec k0 k); simpl.
    + subst. destruct (String.eqb_spec k k'); congruence.
    + now rewrite IH.
Qed.

Lemma get_None_keys d k : get d k = None <-> ~ In k (keys d).
Proof.
  induction d as [|[k' v'] d IH]; simpl.
  - tauto.
  - destruct (String.eqb_spec k' k).
    + split; [discriminate | tauto].
    + rewrite IH. tauto.
Qed.

Lemma get_Some_keys d k v : get d k = Some v -> In k (keys d).
Proof.
  intros H. destruct (in_dec string_dec k (keys d)) as [|Hn]; auto.
  apply get_None_keys in Hn. congruence.
Qed.

Lemma keys_get d k : In k (keys d) -> exists v, get d k = Some v.
Proof.
  intros H. destruct (get d k) eqn:E; eauto.
  apply get_None_keys in E. contradiction.
Qed.

Lemma mem_true d k : mem d k = true <-> In k (keys d).
Proof.
  unfold mem. split.
  - destruct (get d k) eqn:E; [intros _; eapply get_Some_keys; eauto | discriminate].
  - intros H. apply keys_get in H as [v ->]. reflexivity.
Qed.

Lemma mem_false d k : mem d k = false <-> ~ In k (keys d).
Proof.
  rewrite <- mem_true. destruct (mem d k); split; congruence.
Qed.

Lemma keys_set_in d k v : In k (keys d) -> keys (set d k v) = keys d.
Proof.
  induction d as [|[k' v'] d IH]; simpl; [tauto|].
  intros H. destruct (String.eqb_spec k' k); simpl; [reflexivity|].
  f_equal. apply IH. destruct H; congruence.
Qed.

Lemma keys_set_notin d k v : ~ In k (keys d) -> keys (set d k v) = keys d ++ [k].
Proof.
  induction d as [|[k' v'] d IH]; simpl; [reflexivity|].
  intros H. destruct (String.eqb_spec k' k); simpl; [tauto|].
  f_equal. apply IH. tauto.
Qed.

Lemma in_keys_set d k k' v : In k' (keys (set d k v)) <-> k' = k \/ In k' (keys d).
Proof.
  destruct (in_dec string_dec k (keys d)) as [Hin|Hn].
  - rewrite keys_set_in by assumption. split; [tauto|]. intros [->|]; auto.
  - rewrite keys_set_notin by assumption. rewrite in_app_iff. simpl.
    split; [intros [|[|[]]]; auto | intros [|]; auto].
Qed.

Lemma wf_set d k v : wf d -> wf (set d k v).
Proof.
  unfold wf. intros H.
  destruct (in_dec string_dec k (keys d)) as [Hin|Hn].
  - now rewrite keys_set_in.
  - rewrite keys_set_notin by assumption.
    apply NoDup_app; [assumption | repeat constructor; simpl; tauto |].
    intros x Hx [<-|[]]. contradiction.
Qed.

Lemma set_get_same d k v : get d k = Some v -> set d k v = d.
Proof.
  induction d as [|[k' v'] d IH]; simpl; [discriminate|].
  destruct (String.eqb_spec k' k); intros H.
  - congruence.
  - now rewrite IH.
Qed.

Lemma in_keys_pop d k k' : In k' (keys (pop d k)) -> In k' (keys d).
Proof.
  induction d as [|[k0 v0] d IH]; simpl; [tauto|].
  destruct (String.eqb k0 k); simpl; [tauto|]. intros [|]; auto.
Qed.

Lemma wf_pop d k : wf d -> wf (pop d k).
Proof.
  unfold wf. induction d as [|[k0 v0] d IH]; simpl; intros H; [constructor|].
  inversion H; subst.
  destruct (String.eqb k0 k); simpl; [assumption|].
  constructor; [|auto]. intros Hin. apply in_keys_pop in Hin. contradiction.
Qed.

Lemma get_pop_same d k : wf d -> get (pop d k) k = None.
Proof.
  unfold wf. induction d as [|[k0 v0] d IH]; simpl; intros H; [reflexivity|].
  inversion H; subst.
  destruct (String.eqb_spec k0 k); simpl.
  - subst. now apply get_None_keys.
  - destruct (String.eqb_spec k0 k); [congruence | auto].
Qed.

Lemma get_pop_other d k k' : k <> k' -> get (pop d k) k' = get d k'.
Proof.
  intros Hne. induction d as [|[k0 v0] d IH]; simpl; [reflexivity|].
  destruct (String.eqb_spec k0 k); simpl.
  - subst. destruct (String.eqb_spec k k'); congruence.
  - now rewrite IH.
Qed.

Lemma pop_absent d k : get d k = None -> pop d k = d.
Proof.
  induction d as [|[k0 v0] d IH]; simpl; [reflexivity|].
  destruct (String.eqb k0 k); [discriminate|]. intros H. now rewrite IH.
Qed.

Lemma get_In d k v : get d k = Some v -> In (k, v) d.
Proof.
  induction d as [|[k0 v0] d IH]; simpl; [discriminate|].
  destruct (String.eqb_spec k0 k); intros H.
  - left. congruence.
  - right. auto.
Qed.

Lemma In_get d k v : wf d -> In (k, v) d -> get d k = Some v.
Proof.
  unfold wf. induction d as [|[k0 v0] d IH]; simpl; intros Hwf H; [tauto|].
  inversion Hwf; subst.
  destruct H as [H|H].
  - inversion H; subst. now rewrite String.eqb_refl.
  - destruct (String.eqb_spec k0 k); [|auto].
    subst. exfalso. apply H2. change k with (fst (k, v)). now apply in_map.
Qed.

End Facts.

End DictFacts.

(* ------------------------------------------------------------------ *)
(** ** Facts about event lists *)

Lemma presence_replies_app l1 l2 :
  presence_replies (l1 ++ l2) = presence_replies l1 ++ presence_replies l2.
Proof.
  induction l1 as [|[] l1 IH]; simpl; auto. now rewrite IH.
Qed.

Lemma probed_users_replies l : probed_users l = map fst (presence_replies l).
Proof.
  induction l as [|[] l IH]; simpl; auto. now rewrite IH.
Qed.

Lemma probed_users_app l1 l2 :
  probed_users (l1 ++ l2) = probed_users l1 ++ probed_users l2.
Proof.
  now rewrite !probed_users_replies, presence_replies_app, map_app.
Qed.

Lemma deactivated_users_app l1 l2 :
  deactivated_users (l1 ++ l2) = deactivated_users l1 ++ deactivated_users l2.
Proof.
  induction l1 as [|[] l1 IH]; simpl; auto. now rewrite IH.
Qed.

Lemma in_presence_replies l u r :
  In (u, r) (presence_replies l) <-> In (EvGetPresence u r) l.
Proof.
  induction l as [|e l IH]; simpl; [tauto|].
  destruct e; simpl; rewrite IH;
    (split; [intros H; try (destruct H as [H|H]; [inversion H; subst|]); auto
            | intros [H|H]; [try discriminate H; inversion H; auto | auto]]).
Qed.

Lemma in_probed_users l u :
  In u (probed_users l) <-> exists r, In (EvGetPresence u r) l.
Proof.
  rewrite probed_users_replies, in_map_iff. split.
  - intros [[u' r] [<- H]]. exists r. now apply in_presence_replies.
  - intros [r H]. exists (u, r). split; [reflexivity | now apply in_presence_replies].
Qed.

Lemma in_deactivated_users l u :
  In u (deactivated_users l) <-> exists ok, In (EvDeactivate u ok) l.
Proof.
  induction l as [|e l IH]; simpl.
  - split; [tauto | intros [? []]].
  - destruct e; simpl; rewrite IH; split;
      try (intros [ok H]; exists ok; tauto);
      try (intros [ok [H|H]]; [discriminate H | eauto]).
    + intros [<-|[ok' H]]; eauto.
    + intros [ok' [H|H]]; [inversion H; auto | eauto].
Qed.

Lemma discovery_calls_app l1 l2 :
  discovery_calls (l1 ++ l2) = discovery_calls l1 ++ discovery_calls l2.
Proof. apply filter_app. Qed.

Lemma sync_calls_discovery l : discovery_calls l = [] -> sync_calls l = [].
Proof.
  unfold discovery_calls, sync_calls.
  induction l as [|e l IH]; simpl; auto.
  destruct e; simpl; auto; discriminate.
Qed.

(* ------------------------------------------------------------------ *)
(** ** The probe step *)

Section ProbeFacts.

Context {World : Type}.
Variable api : GMatrixHttpApi World.
Implicit Types (w : World) (ua : Dict.t Z) (due : list string).

(** One turn of the probe loop never raises: it asks once, folds the
    reply into the state, and sleeps. *)
Lemma probe_user_eq now dl u st w :
  probe_user api now dl u st w =
  mkOut (Ok (probe_step now dl st (u, fst (api_get_presence api u w))))
        [EvGetPresence u (fst (api_get_presence api u w)); EvSleep]
        (snd (api_get_presence api u w)).
Proof.
  destruct st as [ua due].
  unfold probe_user, try_finally, try_except_MatrixError, bind, call_get_presence,
    probe_step, sleep.
  destruct (api_get_presence api u w) as [[p|] w']; simpl; [|reflexivity].
  rewrite DictFacts.get_set_same.
  destruct ((now - last_active_ago_of p <? dl) && (presence p =? "offline")%string);
    reflexivity.
Qed.

(** The loop is a fold of [probe_step] over the replies it received, asks
    about each candidate once and in order, and does nothing else. *)
Lemma probe_loop_spec now dl cands : forall st w,
  let o := probe_loop api now dl cands st w in
  res o = Ok (fold_left (probe_step now dl) (presence_replies (evs o)) st) /\
  probed_users (evs o) = cands /\
  discovery_calls (evs o) = [] /\
  deactivated_users (evs o) = [].
Proof.
  induction cands as [|u cands IH]; intros st w; simpl.
  - repeat split.
  - unfold bind. rewrite probe_user_eq. simpl.
    specialize (IH (probe_step now dl st (u, fst (api_get_presence api u w)))
                   (snd (api_get_presence api u w))).
    simpl in IH. destruct IH as (Hres & Hp & Hd & Hx).
    destruct (res (probe_loop api now dl cands _ _)) eqn:E; [|discriminate].
    simpl. repeat split; auto. now rewrite Hp.
Qed.

End ProbeFacts.

(** *** The fold over the replies *)

Section ProbeFold.

Variables now dl : Z.
Implicit Types (st : Dict.t Z * list string)
  (urs : list (string * option PresenceResponse)).

Lemma probe_fold_get_other urs : forall st u,
  ~ In u (map fst urs) ->
  Dict.get (fst (fold_left (probe_step now dl) urs st)) u = Dict.get (fst st) u.
Proof.
  induction urs as [|[u' r] urs IH]; intros st u Hn; simpl in *; [reflexivity|].
  rewrite IH by tauto.
  unfold probe_step; simpl. destruct r; simpl; [|reflexivity].
  apply DictFacts.get_set_other. tauto.
Qed.

Lemma probe_fold_get_failed urs : forall st u,
  NoDup (map fst urs) -> In (u, None) urs ->
  Dict.get (fst (fold_left (probe_step now dl) urs st)) u = Dict.get (fst st) u.
Proof.
  induction urs as [|[u' r] urs IH]; intros st u Hnd Hin; simpl in *; [tauto|].
  inversion Hnd; subst.
  destruct Hin as [Hin|Hin].
  - inversion Hin; subst. now rewrite probe_fold_get_other.
  - rewrite IH by assumption.
    unfold probe_step; simpl. destruct r; simpl; [|reflexivity].
    apply DictFacts.get_set_other. intros ->.
    apply H1. change u with (fst (u, @None PresenceResponse)). now apply in_map.
Qed.

Lemma probe_fold_get_answered urs : forall st u p,
  NoDup (map fst urs) -> In (u, Some p) urs ->
  Dict.get (fst (fold_left (probe_step now dl) urs st)) u =
  Some (now - last_active_ago_of p).
Proof.
  induction urs as [|[u' r] urs IH]; intros st u p Hnd Hin; simpl in *; [tauto|].
  inversion Hnd; subst.
  destruct Hin as [Hin|Hin].
  - inversion Hin; subst. rewrite probe_fold_get_other by assumption.
    unfold probe_step; simpl. apply DictFacts.get_set_same.
  - now apply IH.
Qed.

Lemma probe_step_due st u' r u :
  In u (snd (probe_step now dl st (u', r))) <->
  In u (snd st) \/
  (u = u' /\ exists p, r = Some p /\
                      now - last_active_ago_of p < dl /\ presence p = "offline").
Proof.
  unfold probe_step; simpl. destruct r as [p|]; simpl.
  - destruct (Z.ltb_spec (now - last_active_ago_of p) dl) as [Hlt|Hge];
      destruct (String.eqb_spec (presence p) "offline") as [Hoff|Hon]; simpl.
    + rewrite in_app_iff. simpl. split.
      * intros [H|[<-|[]]]; [auto | right; split; eauto].
      * intros [H|[-> _]]; auto.
    + split; [auto | intros [H|(_ & q & Hq & _ & Hq')]; [auto | congruence]].
    + split; [auto | intros [H|(_ & q & Hq & Hq' & _)]; [auto|]].
      inversion Hq; subst. lia.
    + split; [auto | intros [H|(_ & q & Hq & _ & Hq')]; [auto | congruence]].
  - split; [auto | intros [H|(_ & q & Hq & _)]; [auto | discriminate]].
Qed.

Lemma probe_fold_due urs : forall st u,
  In u (snd (fold_left (probe_step now dl) urs st)) <->
  In u (snd st) \/
  exists p, In (u, Some p) urs /\
            now - last_active_ago_of p < dl /\ presence p = "offline".
Proof.
  induction urs as [|[u' r] urs IH]; intros st u; simpl.
  - split; [tauto | intros [|[p []]]; tauto].
  - rewrite IH, probe_step_due. split.
    + intros [[H|(-> & p & -> & Hp)]|(p & Hin & Hp)].
      * auto.
      * right. exists p. auto.
      * right. exists p. auto.
    + intros [H|(p & [Hin|Hin] & Hp)].
      * auto.
      * inversion Hin; subst. left. right. split; eauto.
      * right. exists p. auto.
Qed.

Lemma probe_fold_keys urs : forall st,
  (forall u, In u (map fst urs) -> In u (Dict.keys (fst st))) ->
  Dict.keys (fst (fold_left (probe_step now dl) urs st)) = Dict.keys (fst st).
Proof.
  induction urs as [|[u r] urs IH]; intros st Hin; simpl in *; [reflexivity|].
  assert (Hk : Dict.keys (fst (probe_step now dl st (u, r))) = Dict.keys (fst st)).
  { unfold probe_step; simpl. destruct r; simpl; [|reflexivity].
    apply DictFacts.keys_set_in. auto. }
  rewrite IH; [assumption|]. intros u' Hu'. rewrite Hk. auto.
Qed.

Lemma probe_fold_due_sub urs : forall st u,
  In u (snd (fold_left (probe_step now dl) urs st)) ->
  In u (snd st) \/ In u (map fst urs).
Proof.
  intros st u H. apply probe_fold_due in H as [H|(p & Hp & _)]; [auto|].
  right. change u with (fst (u, Some p)). now apply in_map.
Qed.

Lemma probe_fold_due_NoDup urs : forall st,
  NoDup (map fst urs) -> NoDup (snd st) ->
  (forall u, In u (snd st) -> ~ In u (map fst urs)) ->
  NoDup (snd (fold_left (probe_step now dl) urs st)).
Proof.
  induction urs as [|[u r] urs IH]; intros st Hnd Hst Hdisj; simpl in *; [assumption|].
  inversion Hnd; subst.
  apply IH; [assumption | |].
  - unfold probe_step; simpl. destruct r; simpl; [|assumption].
    destruct (_ && _); [|assumption].
    apply NoDup_app; [assumption | repeat constructor; simpl; tauto |].
    intros x Hx [Hxu|[]]. subst x. apply (Hdisj u); auto.
  - intros x Hx Hin. unfold probe_step in Hx; simpl in Hx.
    destruct r; simpl in Hx; [|apply (Hdisj x); auto].
    destruct (_ && _); [|apply (Hdisj x); auto].
    apply in_app_iff in Hx as [Hx|[<-|[]]]; [apply (Hdisj x); auto | contradiction].
Qed.

End ProbeFold.

(** *** Candidates *)

Lemma possible_candidates_In ua dl u :
  In u (possible_candidates ua dl) -> exists v, In (u, v) ua /\ v < dl.
Proof.
  unfold possible_candidates. rewrite in_map_iff.
  intros [[u' v] [<- H]]. apply filter_In in H as [H Hlt].
  exists v. split; [assumption | now apply Z.ltb_lt].
Qed.

Lemma possible_candidates_keys ua dl u :
  In u (possible_candidates ua dl) -> In u (Dict.keys ua).
Proof.
  intros H. apply possible_candidates_In in H as (v & H & _).
  change u with (fst (u, v)). now apply in_map.
Qed.

Lemma possible_candidates_get ua dl u :
  Dict.wf ua ->
  (In u (possible_candidates ua dl) <-> exists v, Dict.get ua u = Some v /\ v < dl).
Proof.
  intros Hwf. split.
  - intros H. apply possible_candidates_In in H as (v & H & Hlt).
    exists v. split; [now apply DictFacts.In_get | assumption].
  - intros (v & H & Hlt). unfold possible_candidates. apply in_map_iff.
    exists (u, v). split; [reflexivity|]. apply filter_In.
    split; [now apply DictFacts.get_In | now apply Z.ltb_lt].
Qed.

Lemma possible_candidates_NoDup ua dl :
  Dict.wf ua -> NoDup (possible_candidates ua dl).
Proof.
  unfold Dict.wf, Dict.keys, possible_candidates.
  induction ua as [|[u v] ua IH]; simpl; intros H; [constructor|].
  inversion H; subst.
  destruct (v <? dl); simpl; [|auto].
  constructor; [|auto]. intros Hin. apply H2.
  apply in_map_iff in Hin as [[u' v'] [Heq Hin]]. simpl in Heq. subst u'.
  apply filter_In in Hin as [Hin _].
  change u with (fst (u, v')). now apply in_map.
Qed.

(** *** [_update_user_activity_for_network] as a whole *)

Section ProbeNetwork.

Context {World : Type}.
Variable api : GMatrixHttpApi World.

Lemma update_for_network_spec ua now w :
  Dict.wf ua ->
  let dl := now - USER_PURGING_THRESHOLD in
  let o := _update_user_activity_for_network api ua now w in
  exists ua' due,
    res o = Ok (ua', due) /\
    probed_users (evs o) = possible_candidates ua dl /\
    discovery_calls (evs o) = [] /\
    deactivated_users (evs o) = [] /\
    Dict.keys ua' = Dict.keys ua /\
    NoDup due /\
    (forall u, In u due -> In u (Dict.keys ua')) /\
    (forall u, ~ In u (possible_candidates ua dl) -> Dict.get ua' u = Dict.get ua u) /\
    (forall u, In (EvGetPresence u None) (evs o) -> Dict.get ua' u = Dict.get ua u) /\
    (forall u p, In (EvGetPresence u (Some p)) (evs o) ->
                 Dict.get ua' u = Some (now - last_active_ago_of p)) /\
    (forall u, In u due <->
               exists p, In (EvGetPresence u (Some p)) (evs o) /\
                         now - last_active_ago_of p < dl /\ presence p = "offline").
Proof.
  intros Hwf dl o.
  pose proof (probe_loop_spec api now dl (possible_candidates ua dl) (ua, []) w)
    as (Hres & Hp & Hd & Hx).
  fold dl in Hres, Hp, Hd, Hx.
  change (probe_loop api now dl (possible_candidates ua dl) (ua, []) w) with o
    in Hres, Hp, Hd, Hx.
  set (urs := presence_replies (evs o)) in *.
  assert (Hus : map fst urs = possible_candidates ua dl)
    by (unfold urs; now rewrite <- probed_users_replies).
  assert (Hnd : NoDup (map fst urs))
    by (rewrite Hus; now apply possible_candidates_NoDup).
  destruct (fold_left (probe_step now dl) urs (ua, [])) as [ua' due] eqn:Efold.
  exists ua', due.
  assert (Hk : Dict.keys ua' = Dict.keys ua).
  { change ua' with (fst (ua', due)). rewrite <- Efold.
    rewrite probe_fold_keys; [reflexivity|].
    intros u Hu. rewrite Hus in Hu. now apply possible_candidates_keys in Hu. }
  assert (Hdue : forall u, In u due <->
             exists p, In (EvGetPresence u (Some p)) (evs o) /\
                       now - last_active_ago_of p < dl /\ presence p = "offline").
  { intros u. change due with (snd (ua', due)). rewrite <- Efold.
    rewrite probe_fold_due. simpl. split.
    - intros [[]|(p & Hin & H)]. exists p. split; [|assumption].
      now apply in_presence_replies.
    - intros (p & Hin & H). right. exists p. split; [|assumption].
      now apply in_presence_replies. }
  repeat split; try assumption.
  - change due with (snd (ua', due)). rewrite <- Efold.
    apply probe_fold_due_NoDup; simpl; [assumption | constructor | tauto].
  - intros u Hu. rewrite Hk. apply Hdue in Hu as (p & Hin & _).
    apply possible_candidates_keys with (dl := dl). rewrite <- Hp.
    apply in_probed_users. eauto.
  - intros u Hu. change ua' with (fst (ua', due)). rewrite <- Efold.
    rewrite probe_fold_get_other; [reflexivity | now rewrite Hus].
  - intros u Hu. change ua' with (fst (ua', due)). rewrite <- Efold.
    rewrite probe_fold_get_failed; [reflexivity | assumption |].
    now apply in_presence_replies.
  - intros u p Hu. change ua' with (fst (ua', due)). rewrite <- Efold.
    apply probe_fold_get_answered; [assumption | now apply in_presence_replies].
  - apply Hdue.
  - apply Hdue.
Qed.

End ProbeNetwork.

Ltac case_if :=
  match goal with |- context [if ?b then _ else _] => destruct b end.

Ltac solve_NoDup :=
  repeat (constructor; [simpl; intuition discriminate|]); constructor.



(* ------------------------------------------------------------------ *)
(** ** The presence probe: eligibility, isolation of failures, last-seen *)

(** C2. The probe asks for the presence only of accounts whose stored
    last-seen time is below [now - USER_PURGING_THRESHOLD]; an account is in
    the due list only if a presence reply came back for it, the last-seen
    time stored from that reply is still below the deadline and the reply
    says "offline"; hence no account whose last-seen time, before or after
    the probe, is at or above the deadline is ever returned. *)
Theorem probe_due_only_if_overdue_and_offline
    {World} (api : GMatrixHttpApi World) ua now w :
  Dict.wf ua ->
  let deadline := now - USER_PURGING_THRESHOLD in
  let o := _update_user_activity_for_network api ua now w in
  exists ua' due,
    res o = Ok (ua', due) /\
    (forall u, In u (probed_users (evs o)) ->
               exists stored, Dict.get ua u = Some stored /\ stored < deadline) /\
    (forall u, In u due ->
               exists p, In (EvGetPresence u (Some p)) (evs o) /\
                         Dict.get ua' u = Some (now - last_active_ago_of p) /\
                         now - last_active_ago_of p < deadline /\
                         presence p = "offline") /\
    (forall u stored, In u due -> Dict.get ua u = Some stored -> stored < deadline) /\
    (forall u updated, In u due -> Dict.get ua' u = Some updated -> updated < deadline).
Proof.
  intros Hwf deadline o.
  destruct (update_for_network_spec api ua now w Hwf)
    as (ua' & due & Hres & Hp & _ & _ & _ & _ & _ & _ & _ & Hans & Hdue).
  fold o in Hres, Hp, Hans, Hdue. fold deadline in Hp, Hdue.
  assert (Hprobed : forall u, In u (probed_users (evs o)) ->
            exists stored, Dict.get ua u = Some stored /\ stored < deadline).
  { intros u Hu. rewrite Hp in Hu. now apply possible_candidates_get in Hu. }
  exists ua', due. repeat split; try assumption.
  - intros u Hu. apply Hdue in Hu as (p & Hin & Hlt & Hoff).
    exists p. repeat split; auto.
  - intros u stored Hu Hget. apply Hdue in Hu as (p & Hin & _).
    destruct (Hprobed u) as (s & Hs & Hlt); [apply in_probed_users; eauto|].
    congruence.
  - intros u updated Hu Hget. apply Hdue in Hu as (p & Hin & Hlt & _).
    rewrite (Hans u p Hin) in Hget. congruence.
Qed.

Lemma probe_due_only_if_overdue_and_offline_witness :
  Dict.wf Examples.segment_ex /\
  exists ua' due,
    res (_update_user_activity_for_network Examples.srv Examples.segment_ex
           Examples.now_ex tt) = Ok (ua', due) /\
    due = ["@A:srv"%string].
Proof.
  assert (Hwf : Dict.wf Examples.segment_ex) by (unfold Dict.wf; simpl; solve_NoDup).
  split; [exact Hwf|].
  destruct (probe_due_only_if_overdue_and_offline Examples.srv Examples.segment_ex
              Examples.now_ex tt Hwf) as (ua' & due & Hres & _).
  exists ua', due. split; [exact Hres|].
  vm_compute in Hres. congruence.
Defined.



(** C9. For every candidate whose presence query is answered, the stored
    last-seen time becomes [now - ago], where [ago] is the reply's
    [last_active_ago] in whole seconds, rounded down; a reply without that
    field counts as [USER_PURGING_THRESHOLD + 1] seconds, which puts the
    account below the deadline, so that it is due when reported offline. *)
Theorem probe_sets_last_seen {World} (api : GMatrixHttpApi World) ua now w :
  Dict.wf ua ->
  let o := _update_user_activity_for_network api ua now w in
  exists ua' due,
    res o = Ok (ua', due) /\
    forall u p, In (EvGetPresence u (Some p)) (evs o) ->
      exists ago,
        Dict.get ua' u = Some (now - ago) /\
        match last_active_ago p with
        | Some millis => 1000 * ago <= millis < 1000 * ago + 1000
        | None =>
            ago = USER_PURGING_THRESHOLD + 1 /\
            now - ago < now - USER_PURGING_THRESHOLD /\
            (presence p = "offline" -> In u due)
        end.
Proof.
  intros Hwf o.
  destruct (update_for_network_spec api ua now w Hwf)
    as (ua' & due & Hres & _ & _ & _ & _ & _ & _ & _ & _ & Hans & Hdue).
  fold o in Hres, Hans, Hdue.
  exists ua', due. split; [assumption|].
  intros u p Hin. exists (last_active_ago_of p). split; [now apply Hans|].
  unfold last_active_ago_of in *. destruct (last_active_ago p) as [millis|] eqn:E.
  - pose proof (Z.div_mod millis 1000 ltac:(lia)).
    pose proof (Z.mod_pos_bound millis 1000 ltac:(lia)). lia.
  - repeat split; try lia.
    intros Hoff. apply Hdue. exists p. rewrite E. repeat split; auto. lia.
Qed.

Lemma probe_sets_last_seen_witness :
  Dict.wf Examples.segment_ex /\
  exists ua' due,
    res (_update_user_activity_for_network Examples.srv Examples.segment_ex
           Examples.now_ex tt) = Ok (ua', due) /\
    Dict.get ua' "@B:srv" = Some (Examples.now_ex - 5).
Proof.
  assert (Hwf : Dict.wf Examples.segment_ex) by (unfold Dict.wf; simpl; solve_NoDup).
  split; [exact Hwf|].
  destruct (probe_sets_last_seen Examples.srv Examples.segment_ex
              Examples.now_ex tt Hwf) as (ua' & due & Hres & Hans).
  exists ua', due. split; [exact Hres|].
  destruct (Hans "@B:srv"%string (mkPresence "online" (Some 5000)))
    as (ago & Hget & Hfloor); [vm_compute; tauto|].
  cbn [last_active_ago] in Hfloor. rewrite Hget.
  replace ago with 5 by lia. reflexivity.
Defined.

(* ------------------------------------------------------------------ *)
(** ** Membership sync *)

Lemma split_not_nil sep s : PyStr.split sep s <> [].
Proof.
  destruct s as [|c s]; simpl; [discriminate|].
  destruct (Ascii.eqb c sep); [discriminate|].
  destruct (PyStr.split sep s); discriminate.
Qed.

(** [member.split(":")[1]] exists exactly when the member has a colon. *)
Lemma split_second_has_char sep s :
  nth_error (PyStr.split sep s) 1 = None <-> PyStr.has_char sep s = false.
Proof.
  induction s as [|c s IH]; simpl; [tauto|].
  destruct (Ascii.eqb c sep); simpl.
  - pose proof (split_not_nil sep s).
    destruct (PyStr.split sep s); [contradiction | simpl; split; discriminate].
  - pose proof (split_not_nil sep s).
    destruct (PyStr.split sep s) as [|p ps]; [contradiction | simpl in *; exact IH].
Qed.

Lemma room_members_of_raise server_name ms e :
  room_members_of server_name ms = Raise e ->
  e = IndexError /\ exists m, In m ms /\ PyStr.has_char ":" m = false.
Proof.
  induction ms as [|m ms IH]; cbn [room_members_of]; [discriminate|].
  destruct (nth_error (PyStr.split ":" m) 1) eqn:E.
  - destruct (room_members_of server_name ms) eqn:Er.
    + case_if; discriminate.
    + intros H. inversion H; subst. destruct (IH eq_refl) as (-> & m' & Hin & Hc).
      split; [reflexivity|]. exists m'. simpl. auto.
  - intros H. inversion H; subst. split; [reflexivity|].
    exists m. split; [simpl; auto|]. now apply split_second_has_char.
Qed.

Lemma room_members_of_ok server_name ms kept :
  room_members_of server_name ms = Ok kept ->
  kept = filter (is_room_member server_name) ms.
Proof.
  revert kept. induction ms as [|m ms IH]; cbn [room_members_of filter]; intros kept.
  - intros H. now inversion H.
  - unfold is_room_member at 1.
    destruct (nth_error (PyStr.split ":" m) 1) eqn:E; [|discriminate].
    destruct (room_members_of server_name ms) eqn:Er; [|discriminate].
    rewrite <- (IH a eq_refl).
    case_if; intros H; now inversion H.
Qed.

Lemma room_members_of_total server_name ms :
  Forall (fun m => PyStr.has_char ":" m = true) ms ->
  exists kept, room_members_of server_name ms = Ok kept.
Proof.
  intros H. destruct (room_members_of server_name ms) eqn:E; eauto.
  apply room_members_of_raise in E as (_ & m & Hin & Hc).
  rewrite Forall_forall in H. specialize (H m Hin). congruence.
Qed.

Section AddNewMembers.

Variable now : Z.
Implicit Types (ms : list string) (ua : Dict.t Z).

Lemma add_new_members_known ms : forall ua u v,
  Dict.get ua u = Some v -> Dict.get (add_new_members ms ua now) u = Some v.
Proof.
  induction ms as [|m ms IH]; intros ua u v H; simpl; [assumption|].
  apply IH. destruct (Dict.mem ua m) eqn:E; [assumption|].
  rewrite DictFacts.get_set_other; [assumption|].
  intros ->. unfold Dict.mem in E. now rewrite H in E.
Qed.

Lemma add_new_members_new ms : forall ua m,
  In m ms -> Dict.get ua m = None ->
  Dict.get (add_new_members ms ua now) m = Some (now - USER_PURGING_THRESHOLD - 1).
Proof.
  induction ms as [|m' ms IH]; intros ua m Hin Hget; simpl in *; [tauto|].
  destruct (string_dec m' m) as [->|Hne].
  - unfold Dict.mem. rewrite Hget.
    apply add_new_members_known, DictFacts.get_set_same.
  - destruct Hin as [|Hin]; [contradiction|].
    apply IH; [assumption|].
    destruct (Dict.mem ua m'); [assumption|].
    now rewrite DictFacts.get_set_other.
Qed.

Lemma add_new_members_other ms : forall ua u,
  ~ In u ms -> Dict.get (add_new_members ms ua now) u = Dict.get ua u.
Proof.
  induction ms as [|m ms IH]; intros ua u Hn; simpl in *; [reflexivity|].
  rewrite IH by tauto.
  destruct (Dict.mem ua m); [reflexivity|].
  apply DictFacts.get_set_other. tauto.
Qed.

Lemma add_new_members_wf ms : forall ua,
  Dict.wf ua -> Dict.wf (add_new_members ms ua now).
Proof.
  induction ms as [|m ms IH]; intros ua H; simpl; [assumption|].
  apply IH. destruct (Dict.mem ua m); [assumption | now apply DictFacts.wf_set].
Qed.

Lemma add_new_members_all_known ms : forall ua,
  (forall m, In m ms -> Dict.mem ua m = true) -> add_new_members ms ua now = ua.
Proof.
  induction ms as [|m ms IH]; intros ua H; simpl; [reflexivity|].
  rewrite (H m) by (simpl; auto). apply IH. intros m' Hm'. apply H. simpl; auto.
Qed.

Lemma add_new_members_mem ms ua m :
  In m ms -> Dict.mem (add_new_members ms ua now) m = true.
Proof.
  intros Hin. unfold Dict.mem.
  destruct (Dict.get ua m) as [v|] eqn:E.
  - now rewrite (add_new_members_known ms ua m v E).
  - now rewrite add_new_members_new.
Qed.

End AddNewMembers.

Section SyncFacts.

Context {World : Type}.
Variable api : GMatrixHttpApi World.

(** The sync asks for the member list once; a failed request leaves the
    segment alone, a malformed member id raises [IndexError]. *)
Lemma fetch_new_members_eq ua room now w :
  _fetch_new_members_for_network api ua room now w =
  mkOut (match fst (api_get_members api (room_id room) w) with
         | None => Ok ua
         | Some ms =>
             match room_members_of (api_netloc api) ms with
             | Ok room_members => Ok (add_new_members room_members ua now)
             | Raise e => Raise e
             end
         end)
        [EvGetMembers (room_id room) (fst (api_get_members api (room_id room) w))]
        (snd (api_get_members api (room_id room) w)).
Proof.
  unfold _fetch_new_members_for_network, try_except_MatrixError, bind, call_get_members.
  destruct (api_get_members api (room_id room) w) as [[ms|] w']; simpl; [|reflexivity].
  destruct (room_members_of (api_netloc api) ms) eqn:E; simpl.
  - reflexivity.
  - apply room_members_of_raise in E as [-> _]. reflexivity.
Qed.

End SyncFacts.

(** C7. Membership sync is idempotent: when the server lists the same
    members again, a second sync of the segment the first one returned
    returns that very segment, at whatever time it runs; and the first sync
    keeps the last-seen time of every account the segment already held. *)
Theorem membership_sync_idempotent
    {World} (api : GMatrixHttpApi World) ua room now later w w' ua1 :
  fst (api_get_members api (room_id room) w') =
  fst (api_get_members api (room_id room) w) ->
  res (_fetch_new_members_for_network api ua room now w) = Ok ua1 ->
  res (_fetch_new_members_for_network api ua1 room later w') = Ok ua1 /\
  (forall u v, Dict.get ua u = Some v -> Dict.get ua1 u = Some v).
Proof.
  rewrite !fetch_new_members_eq. simpl. intros ->.
  destruct (fst (api_get_members api (room_id room) w)) as [ms|].
  - destruct (room_members_of (api_netloc api) ms) as [kept|] eqn:E; [|discriminate].
    intros H. inversion H; subst. split.
    + f_equal. apply add_new_members_all_known.
      intros m Hm. now apply add_new_members_mem.
    + intros u v Hget. now apply add_new_members_known.
  - intros H. inversion H; subst. auto.
Qed.

Lemma membership_sync_idempotent_witness :
  exists ua1,
    res (_fetch_new_members_for_network Examples.srv Examples.segment_ex
           (mkRoomInfo "!r1:srv" "raiden_1_discovery" "srv") Examples.now_ex tt) = Ok ua1 /\
    res (_fetch_new_members_for_network Examples.srv ua1
           (mkRoomInfo "!r1:srv" "raiden_1_discovery" "srv") (Examples.now_ex + 7) tt)
    = Ok ua1.
Proof.
  eexists. split; [reflexivity|].
  eapply (membership_sync_idempotent Examples.srv Examples.segment_ex
            (mkRoomInfo "!r1:srv" "raiden_1_discovery" "srv")
            Examples.now_ex (Examples.now_ex + 7) tt tt); reflexivity.
Defined.

(* ------------------------------------------------------------------ *)
(** ** The purge step *)

Section PurgeFacts.

Context {World : Type}.
Variable api : GMatrixHttpApi World.
Implicit Types (w : World) (ua : Dict.t Z) (due : list string).

(** One turn of the purge loop: an account that is not in the segment
    raises [KeyError] before any request; otherwise one request is made and
    the account is removed exactly when it succeeds. *)
Lemma purge_user_eq u ua w :
  purge_user api u ua w =
  match Dict.get ua u with
  | None => mkOut (Raise KeyError) [EvSleep] w
  | Some _ =>
      mkOut (Ok (if fst (api_deactivate api u w) then Dict.pop ua u else ua))
            [EvDeactivate u (fst (api_deactivate api u w)); EvSleep]
            (snd (api_deactivate api u w))
  end.
Proof.
  unfold purge_user, try_finally, try_except_MatrixError, bind, call_deactivate,
    of_option, sleep.
  destruct (Dict.get ua u); simpl; [|reflexivity].
  destruct (api_deactivate api u w) as [[|] w']; reflexivity.
Qed.

(** Whatever it is given, the purge loop only ever requests deactivation
    of accounts in its due list, and makes no other request. *)
Lemma purge_loop_events due : forall ua w,
  let o := _purge_inactive_users_for_network api ua due w in
  discovery_calls (evs o) = [] /\
  probed_users (evs o) = [] /\
  (forall u, In u (deactivated_users (evs o)) -> In u due).
Proof.
  induction due as [|u due IH]; intros ua w; simpl.
  - repeat split. intros u [].
  - unfold bind. rewrite purge_user_eq.
    destruct (Dict.get ua u); simpl.
    + match goal with |- context [_purge_inactive_users_for_network api ?a due ?b] =>
        destruct (IH a b) as (Hd & Hp & Hx) end.
      repeat split; auto. intros x [<-|Hin]; auto.
    + repeat split. intros x [].
Qed.

Lemma purge_loop_spec due : forall ua w,
  Dict.wf ua -> NoDup due -> (forall u, In u due -> In u (Dict.keys ua)) ->
  let o := _purge_inactive_users_for_network api ua due w in
  exists ua',
    res o = Ok ua' /\
    deactivated_users (evs o) = due /\
    Dict.wf ua' /\
    (forall u, In (EvDeactivate u true) (evs o) -> Dict.get ua' u = None) /\
    (forall u, In (EvDeactivate u false) (evs o) -> Dict.get ua' u = Dict.get ua u) /\
    (forall u, ~ In u due -> Dict.get ua' u = Dict.get ua u) /\
    (forall u, In u (Dict.keys ua') -> In u (Dict.keys ua)).
Proof.
  induction due as [|u due IH]; intros ua w Hwf Hnd Hsub; simpl.
  - exists ua. repeat split; auto; intros ? [].
  - unfold bind. rewrite purge_user_eq.
    destruct (DictFacts.keys_get ua u (Hsub u (or_introl eq_refl))) as [v Hv].
    rewrite Hv. simpl.
    inversion Hnd as [|? ? Hnotin Hnd']; subst.
    set (ok := fst (api_deactivate api u w)).
    set (ua1 := if ok then Dict.pop ua u else ua).
    assert (Hwf1 : Dict.wf ua1)
      by (unfold ua1; destruct ok; [now apply DictFacts.wf_pop | assumption]).
    assert (Hother : forall x, x <> u -> Dict.get ua1 x = Dict.get ua x).
    { intros x Hx. unfold ua1. destruct ok; [|reflexivity].
      apply DictFacts.get_pop_other. congruence. }
    assert (Hsub1 : forall x, In x due -> In x (Dict.keys ua1)).
    { intros x Hx.
      destruct (DictFacts.keys_get ua x (Hsub x (or_intror Hx))) as [vx Hvx].
      apply DictFacts.get_Some_keys with (v := vx). rewrite Hother; [assumption|].
      intros ->. contradiction. }
    destruct (IH ua1 (snd (api_deactivate api u w)) Hwf1 Hnd' Hsub1)
      as (ua' & Hres & Hdeact & Hwf' & Hok & Hfail & Hrest & Hkeys).
    rewrite Hres. simpl. exists ua'.
    split; [reflexivity|]. split; [now rewrite Hdeact|]. split; [assumption|].
    assert (Hu : Dict.get ua' u = Dict.get ua1 u) by now apply Hrest.
    split; [|split; [|split]].
    + intros x [Hx|[Hx|Hx]]; [|discriminate|now apply Hok].
      inversion Hx; subst x. rewrite Hu. unfold ua1.
      replace ok with true by congruence. now apply DictFacts.get_pop_same.
    + intros x [Hx|[Hx|Hx]]; [|discriminate|].
      * inversion Hx; subst x. rewrite Hu. unfold ua1.
        replace ok with false by congruence. reflexivity.
      * rewrite (Hfail x Hx). apply Hother. intros ->. apply Hnotin.
        rewrite <- Hdeact. apply in_deactivated_users. eauto.
    + intros x Hx. rewrite Hrest by tauto. apply Hother. intros ->. tauto.
    + intros x Hx. apply Hkeys in Hx. unfold ua1 in Hx.
      destruct ok; [now apply DictFacts.in_keys_pop in Hx | assumption].
Qed.

End PurgeFacts.

(* ------------------------------------------------------------------ *)
(** ** The monad *)

Lemma bind_res {W A B} (m : M W A) (f : A -> M W B) w :
  res (bind m f w) =
  match res (m w) with Ok a => res (f a (wld (m w))) | Raise e => Raise e end.
Proof. unfold bind. destruct (res (m w)); reflexivity. Qed.

Lemma bind_evs {W A B} (m : M W A) (f : A -> M W B) w :
  evs (bind m f w) =
  evs (m w) ++ match res (m w) with Ok a => evs (f a (wld (m w))) | Raise _ => [] end.
Proof. unfold bind. destruct (res (m w)); simpl; [reflexivity | now rewrite app_nil_r]. Qed.

Lemma bind_wld {W A B} (m : M W A) (f : A -> M W B) w :
  wld (bind m f w) =
  match res (m w) with Ok a => wld (f a (wld (m w))) | Raise _ => wld (m w) end.
Proof. unfold bind. destruct (res (m w)); reflexivity. Qed.

Lemma out_eq {W A} (o o' : Out W A) :
  res o = res o' -> evs o = evs o' -> wld o = wld o' -> o = o'.
Proof. destruct o, o'; simpl; congruence. Qed.

(* ------------------------------------------------------------------ *)
(** ** One network of the refresh-and-probe loop *)

Section NetworkFacts.

Context {World : Type}.
Variable api : GMatrixHttpApi World.
Variable imp : Imports.
Implicit Types (w : World) (ua : Dict.t Z).

Lemma get_discovery_room_eq n w :
  get_discovery_room api imp n w =
  mkOut (Ok (option_map
               (fun i => mkRoomInfo i (discovery_room_alias imp n) (api_netloc api))
               (fst (api_get_room_id api (lookup_alias api imp n) w))))
        [EvGetRoomId (lookup_alias api imp n)
           (fst (api_get_room_id api (lookup_alias api imp n) w))]
        (snd (api_get_room_id api (lookup_alias api imp n) w)).
Proof.
  unfold get_discovery_room, try_except_MatrixError, bind, call_get_room_id.
  fold (lookup_alias api imp n).
  destruct (api_get_room_id api (lookup_alias api imp n) w) as [[i|] w']; reflexivity.
Qed.

Lemma update_network_no_fetch now k ua :
  update_network api imp false now k ua = probe_network api now ua.
Proof. reflexivity. Qed.

(** With a refresh due, one network goes: parse the key, look the room
    up, and either skip the network or sync and probe it. *)
Lemma update_network_fetch now k ua w :
  update_network api imp true now k ua w =
  match py_int imp k with
  | None => mkOut (Raise ValueError) [] w
  | Some n =>
      let a := lookup_alias api imp n in
      let r := fst (api_get_room_id api a w) in
      let w1 := snd (api_get_room_id api a w) in
      match r with
      | None => mkOut (Ok (ua, None)) [EvGetRoomId a None] w1
      | Some i =>
          let room := mkRoomInfo i (discovery_room_alias imp n) (api_netloc api) in
          let o1 := _fetch_new_members_for_network api ua room now w1 in
          match res o1 with
          | Raise e => mkOut (Raise e) (EvGetRoomId a r :: evs o1) (wld o1)
          | Ok ua1 =>
              let o2 := probe_network api now ua1 (wld o1) in
              mkOut (res o2) (EvGetRoomId a r :: evs o1 ++ evs o2) (wld o2)
          end
      end
  end.
Proof.
  unfold update_network, of_option.
  destruct (py_int imp k) as [n|]; [|reflexivity].
  apply out_eq;
    rewrite ?bind_res, ?bind_evs, ?bind_wld; cbn [res evs wld ret app];
    rewrite ?bind_res, ?bind_evs, ?bind_wld, get_discovery_room_eq;
    cbn [res evs wld ret app];
    destruct (fst (api_get_room_id api (lookup_alias api imp n) w)) as [i|];
    cbn [res evs wld ret app option_map]; try reflexivity;
    rewrite ?bind_res, ?bind_evs, ?bind_wld;
    destruct (res (_fetch_new_members_for_network api ua _ now _));
    cbn [res evs wld ret app]; rewrite ?app_nil_r; reflexivity.
Qed.

Lemma probe_network_spec now ua w :
  Dict.wf ua ->
  let o := probe_network api now ua w in
  exists ua' due,
    res o = Ok (ua', Some due) /\
    evs o = evs (_update_user_activity_for_network api ua now w) /\
    Dict.wf ua' /\ Dict.keys ua' = Dict.keys ua /\
    NoDup due /\ (forall u, In u due -> In u (Dict.keys ua')).
Proof.
  intros Hwf o.
  destruct (update_for_network_spec api ua now w Hwf)
    as (ua' & due & Hres & _ & _ & _ & Hk & Hnd & Hsub & _).
  exists ua', due. unfold o, probe_network.
  rewrite bind_res, bind_evs, Hres. simpl. rewrite app_nil_r.
  repeat split; auto. unfold Dict.wf. now rewrite Hk.
Qed.

(** Without any assumption on the segment: a probe makes no discovery
    and no deactivation request, and whoever it reports due was reported
    offline by the server in this very probe. *)
Lemma probe_network_events now ua w :
  let o := probe_network api now ua w in
  discovery_calls (evs o) = [] /\
  deactivated_users (evs o) = [] /\
  (forall ua' due u, res o = Ok (ua', Some due) -> In u due ->
     exists p, In (EvGetPresence u (Some p)) (evs o) /\
               now - last_active_ago_of p < now - USER_PURGING_THRESHOLD /\
               presence p = "offline").
Proof.
  intros o. unfold o, probe_network. rewrite bind_res, bind_evs.
  unfold _update_user_activity_for_network.
  set (dl := now - USER_PURGING_THRESHOLD).
  destruct (probe_loop_spec api now dl (possible_candidates ua dl) (ua, []) w)
    as (Hres & Hp & Hd & Hx).
  rewrite Hres.
  destruct (fold_left _ _ _) as [ua1 due1] eqn:Efold. simpl. rewrite app_nil_r.
  repeat split; auto.
  intros ua' due u Heq Hin. inversion Heq; subst.
  change due with (snd (ua', due)) in Hin. rewrite <- Efold in Hin.
  apply probe_fold_due in Hin as [[]|(p & Hin & Hlt & Hoff)].
  exists p. split; [now apply in_presence_replies | auto].
Qed.

End NetworkFacts.

Section NetworkLoop.

Context {World : Type}.
Variable api : GMatrixHttpApi World.
Variable imp : Imports.
Implicit Types (w : World) (ua : Dict.t Z).

Lemma fetch_new_members_ok ua room now w :
  members_have_colon api -> Dict.wf ua ->
  exists ua1,
    res (_fetch_new_members_for_network api ua room now w) = Ok ua1 /\ Dict.wf ua1.
Proof.
  intros Hcolon Hwf. rewrite fetch_new_members_eq. simpl.
  destruct (fst (api_get_members api (room_id room) w)) as [ms|] eqn:E; [|eauto].
  destruct (room_members_of_total (api_netloc api) ms (Hcolon _ _ _ E)) as [kept ->].
  eexists. split; [reflexivity | now apply add_new_members_wf].
Qed.

Lemma fetch_new_members_events ua room now w :
  let o := _fetch_new_members_for_network api ua room now w in
  deactivated_users (evs o) = [] /\ probed_users (evs o) = [].
Proof. rewrite fetch_new_members_eq. simpl. auto. Qed.

(** One network never raises on a well-formed segment when its key parses
    and the server lists well-formed member ids. *)
Lemma update_network_ok fetch now k ua w :
  Dict.wf ua -> (fetch = true -> py_int imp k <> None) -> members_have_colon api ->
  let o := update_network api imp fetch now k ua w in
  exists ua' odue,
    res o = Ok (ua', odue) /\ Dict.wf ua' /\
    (forall due, odue = Some due ->
                 NoDup due /\ forall u, In u due -> In u (Dict.keys ua')).
Proof.
  intros Hwf Hint Hcolon. destruct fetch.
  - cbv zeta. rewrite update_network_fetch.
    destruct (py_int imp k) as [n|]; [|now destruct Hint].
    cbv zeta.
    destruct (fst (api_get_room_id api (lookup_alias api imp n) w)) as [i|].
    + match goal with |- context [_fetch_new_members_for_network api ua ?r now ?w1] =>
        destruct (fetch_new_members_ok ua r now w1 Hcolon Hwf) as (ua1 & Hres1 & Hwf1)
      end.
      rewrite Hres1.
      match goal with |- context [probe_network api now ua1 ?w2] =>
        destruct (probe_network_spec api now ua1 w2 Hwf1)
          as (ua' & due & Hres & _ & Hwf' & _ & Hnd & Hsub)
      end.
      exists ua', (Some due). simpl. rewrite Hres.
      split; [reflexivity|]. split; [assumption|].
      intros d Hd. inversion Hd; subst. auto.
    + exists ua, None. simpl.
      split; [reflexivity|]. split; [assumption|]. discriminate.
  - cbv zeta. rewrite update_network_no_fetch.
    destruct (probe_network_spec api now ua w Hwf)
      as (ua' & due & Hres & _ & Hwf' & _ & Hnd & Hsub).
    exists ua', (Some due). rewrite Hres.
    split; [reflexivity|]. split; [assumption|].
    intros d Hd. inversion Hd; subst. auto.
Qed.

(** Whatever the segment: one network requests no deactivation, makes no
    discovery request unless a refresh is due, and reports due only
    accounts the server has just reported offline. *)
Lemma update_network_events fetch now k ua w :
  let o := update_network api imp fetch now k ua w in
  deactivated_users (evs o) = [] /\
  (fetch = false -> discovery_calls (evs o) = []) /\
  (forall ua' due u, res o = Ok (ua', Some due) -> In u due ->
     exists p, In (EvGetPresence u (Some p)) (evs o) /\
               now - last_active_ago_of p < now - USER_PURGING_THRESHOLD /\
               presence p = "offline").
Proof.
  destruct fetch.
  - cbv zeta. rewrite update_network_fetch.
    destruct (py_int imp k) as [n|];
      [|simpl; repeat split; try discriminate; auto].
    cbv zeta.
    destruct (fst (api_get_room_id api (lookup_alias api imp n) w)) as [i|];
      [|simpl; repeat split; try discriminate; auto].
    match goal with |- context [_fetch_new_members_for_network api ua ?r now ?w1] =>
      pose proof (fetch_new_members_events ua r now w1) as [Hd1 Hp1];
      set (o1 := _fetch_new_members_for_network api ua r now w1) in *
    end.
    destruct (res o1) as [ua1|e]; cbn [res evs wld].
    + destruct (probe_network_events api now ua1 (wld o1)) as (Hd & Hx & Hdue).
      split; [|split; [discriminate|]].
      * change (EvGetRoomId ?a ?r :: ?l) with ([EvGetRoomId a r] ++ l).
        rewrite !deactivated_users_app, Hd1, Hx. reflexivity.
      * intros ua' due u Hres Hin.
        destruct (Hdue ua' due u Hres Hin) as (p & Hp & Hrest).
        exists p. split; [|assumption]. right. apply in_or_app. auto.
    + split; [|split; [discriminate|]].
      * change (EvGetRoomId ?a ?r :: ?l) with ([EvGetRoomId a r] ++ l).
        rewrite !deactivated_users_app, Hd1. reflexivity.
      * intros ua' due u Hres. discriminate.
  - cbv zeta. rewrite update_network_no_fetch.
    destruct (probe_network_events api now ua w) as (Hd & Hx & Hdue).
    repeat split; auto.
Qed.

End NetworkLoop.

(* ------------------------------------------------------------------ *)
(** ** The loop over the networks *)

Lemma in_set_inv {V} (d : Dict.t V) k v k' v' :
  In (k', v') (Dict.set d k v) -> (k' = k /\ v' = v) \/ In (k', v') d.
Proof.
  induction d as [|[k0 v0] d IH]; simpl.
  - intros [H|[]]. inversion H; auto.
  - destruct (String.eqb_spec k0 k); simpl.
    + intros [H|H]; [inversion H; subst; auto | auto].
    + intros [H|H]; [auto | apply IH in H as [|]; auto].
Qed.

Lemma in_set_other {V} (d : Dict.t V) k v k' v' :
  In (k', v') d -> k' <> k -> In (k', v') (Dict.set d k v).
Proof.
  intros Hin Hne. induction d as [|[k0 v0] d IH]; simpl in *; [tauto|].
  destruct (String.eqb_spec k0 k); simpl.
  - destruct Hin as [H|H]; [inversion H; subst; contradiction | auto].
  - destruct Hin as [H|H]; auto.
Qed.

Lemma Forall_snd_set {V} (P : V -> Prop) (d : Dict.t V) k v :
  Forall (fun kv => P (snd kv)) d -> P v ->
  Forall (fun kv => P (snd kv)) (Dict.set d k v).
Proof.
  intros H Hv. induction d as [|[k0 v0] d IH]; simpl.
  - repeat constructor. assumption.
  - inversion H; subst. destruct (String.eqb k0 k); constructor; auto.
Qed.

Section NetworksLoop.

Context {World : Type}.
Variable api : GMatrixHttpApi World.
Variable imp : Imports.
Implicit Types (w : World) (items : Dict.t (Dict.t Z)) (due : Dict.t (list string)).

Lemma update_networks_cons fetch now k ua items due0 w :
  update_networks api imp fetch now ((k, ua) :: items) due0 w =
  let o1 := update_network api imp fetch now k ua w in
  match res o1 with
  | Raise e => mkOut (Raise e) (evs o1) (wld o1)
  | Ok (ua', odue) =>
      let due1 := match odue with Some d => Dict.set due0 k d | None => due0 end in
      let o2 := update_networks api imp fetch now items due1 (wld o1) in
      mkOut (match res o2 with
             | Ok (items', due') => Ok ((k, ua') :: items', due')
             | Raise e => Raise e
             end)
            (evs o1 ++ evs o2) (wld o2)
  end.
Proof.
  cbn [update_networks]. cbv zeta.
  apply out_eq; rewrite ?bind_res, ?bind_evs, ?bind_wld;
    destruct (res (update_network api imp fetch now k ua w)) as [[ua' odue]|e];
    cbn [res evs wld]; rewrite ?app_nil_r; try reflexivity;
    rewrite ?bind_res, ?bind_evs, ?bind_wld;
    match goal with |- context [res ?o] =>
      destruct (res o) as [[items' due']|e] end;
    cbn [res evs wld ret]; rewrite ?app_nil_r; reflexivity.
Qed.

Lemma update_networks_ok fetch now items : forall due0 w,
  Forall (fun kv => Dict.wf (snd kv)) items ->
  (fetch = true -> forall k, In k (Dict.keys items) -> py_int imp k <> None) ->
  members_have_colon api ->
  let o := update_networks api imp fetch now items due0 w in
  exists items' due',
    res o = Ok (items', due') /\
    Dict.keys items' = Dict.keys items /\
    Forall (fun kv => Dict.wf (snd kv)) items' /\
    (Dict.wf due0 -> Dict.wf due') /\
    (forall k d, In (k, d) due' ->
       In (k, d) due0 \/
       (NoDup d /\ exists ua', In (k, ua') items' /\
                               forall u, In u d -> In u (Dict.keys ua'))).
Proof.
  induction items as [|[k ua] items IH]; intros due0 w Hwf Hint Hcolon.
  - exists [], due0. simpl. repeat split; auto.
  - cbv zeta. rewrite update_networks_cons. cbv zeta.
    inversion Hwf as [|? ? Hua Hrest]; subst. simpl in Hua.
    destruct (update_network_ok api imp fetch now k ua w Hua) as
      (ua' & odue & Hres1 & Hwf' & Hdue1); [|assumption|].
    { intros Hf. apply Hint; simpl; auto. }
    rewrite Hres1.
    set (due1 := match odue with Some d => Dict.set due0 k d | None => due0 end).
    destruct (IH due1 (wld (update_network api imp fetch now k ua w)) Hrest)
      as (items' & due' & Hres2 & Hkeys & Hwfs & Hdwf & Hdue2); [|assumption|].
    { intros Hf k' Hk'. apply Hint; simpl; auto. }
    rewrite Hres2. cbn [res].
    exists ((k, ua') :: items'), due'.
    split; [reflexivity|]. split; [simpl; now rewrite Hkeys|].
    split; [constructor; assumption|]. split.
    + intros Hd0. apply Hdwf. unfold due1.
      destruct odue; [now apply DictFacts.wf_set | assumption].
    + intros k' d' Hin. apply Hdue2 in Hin as [Hin|(Hnd & ua'' & Hin & Hsub)].
      * unfold due1 in Hin. destruct odue as [d|]; [|auto].
        apply in_set_inv in Hin as [[-> ->]|Hin]; [|auto].
        destruct (Hdue1 d eq_refl) as [Hnd Hsub].
        right. split; [assumption|]. exists ua'. simpl. auto.
      * right. split; [assumption|]. exists ua''. simpl. auto.
Qed.

Lemma update_networks_events fetch now items : forall due0 w,
  let o := update_networks api imp fetch now items due0 w in
  deactivated_users (evs o) = [] /\
  (fetch = false -> discovery_calls (evs o) = []) /\
  (forall items' due' k d u, res o = Ok (items', due') ->
     In (k, d) due' -> In u d ->
     In (k, d) due0 \/
     exists p, In (EvGetPresence u (Some p)) (evs o) /\
               now - last_active_ago_of p < now - USER_PURGING_THRESHOLD /\
               presence p = "offline").
Proof.
  induction items as [|[k ua] items IH]; intros due0 w.
  - simpl. repeat split; auto. intros items' due' k d u H. inversion H; auto.
  - cbv zeta. rewrite update_networks_cons. cbv zeta.
    destruct (update_network_events api imp fetch now k ua w) as (Hx1 & Hd1 & Hdue1).
    set (o1 := update_network api imp fetch now k ua w) in *.
    destruct (res o1) as [[ua' odue]|e] eqn:Hres1; cbn [res evs wld].
    + set (due1 := match odue with Some d => Dict.set due0 k d | None => due0 end).
      destruct (IH due1 (wld o1)) as (Hx2 & Hd2 & Hdue2).
      set (o2 := update_networks api imp fetch now items due1 (wld o1)) in *.
      split; [now rewrite deactivated_users_app, Hx1, Hx2|].
      split; [intros Hf; now rewrite discovery_calls_app, Hd1, Hd2|].
      intros items' due' k' d' u Hres Hin Hu.
      destruct (res o2) as [[items2 due2]|e] eqn:Hres2; [|discriminate].
      inversion Hres; subst items' due'.
      destruct (Hdue2 items2 due2 k' d' u eq_refl Hin Hu) as [Hin1|(p & Hp & Hrest)].
      * unfold due1 in Hin1. destruct odue as [d|]; [|auto].
        apply in_set_inv in Hin1 as [[-> ->]|Hin1]; [|auto].
        destruct (Hdue1 ua' d u eq_refl Hu) as (p & Hp & Hrest).
        right. exists p. split; [apply in_or_app; auto | assumption].
      * right. exists p. split; [apply in_or_app; auto | assumption].
    + split; [assumption|]. split; [assumption|]. discriminate.
Qed.

End NetworksLoop.

Section PurgeLoop.

Context {World : Type}.
Variable api : GMatrixHttpApi World.
Implicit Types (w : World) (ntu : Dict.t (Dict.t Z)) (due : Dict.t (list string)).

Lemma purge_networks_cons ntu k d due w :
  purge_networks api ntu ((k, d) :: due) w =
  match Dict.get ntu k with
  | None => mkOut (Raise KeyError) [] w
  | Some ua =>
      let o1 := _purge_inactive_users_for_network api ua d w in
      match res o1 with
      | Raise e => mkOut (Raise e) (evs o1) (wld o1)
      | Ok ua' =>
          let o2 := purge_networks api (Dict.set ntu k ua') due (wld o1) in
          mkOut (res o2) (evs o1 ++ evs o2) (wld o2)
      end
  end.
Proof.
  cbn [purge_networks]. unfold of_option.
  destruct (Dict.get ntu k) as [ua|]; [|reflexivity].
  cbv zeta.
  apply out_eq; rewrite ?bind_res, ?bind_evs, ?bind_wld; cbn [res evs wld ret app];
    rewrite ?bind_res, ?bind_evs, ?bind_wld;
    destruct (res (_purge_inactive_users_for_network api ua d w));
    cbn [res evs wld]; rewrite ?app_nil_r; reflexivity.
Qed.

Lemma purge_networks_ok due : forall ntu w,
  Dict.wf ntu -> Forall (fun kv => Dict.wf (snd kv)) ntu -> Dict.wf due ->
  (forall k d, In (k, d) due ->
     NoDup d /\ exists ua, In (k, ua) ntu /\ forall u, In u d -> In u (Dict.keys ua)) ->
  exists ntu',
    res (purge_networks api ntu due w) = Ok ntu' /\
    Dict.keys ntu' = Dict.keys ntu /\
    Forall (fun kv => Dict.wf (snd kv)) ntu'.
Proof.
  induction due as [|[k d] due IH]; intros ntu w Hwf Hwfs Hdwf Hdue.
  - exists ntu. simpl. auto.
  - rewrite purge_networks_cons.
    destruct (Hdue k d (or_introl eq_refl)) as (Hnd & ua & Hin & Hsub).
    rewrite (DictFacts.In_get ntu k ua Hwf Hin). cbv zeta.
    assert (Hua : Dict.wf ua).
    { rewrite Forall_forall in Hwfs. apply (Hwfs (k, ua) Hin). }
    destruct (purge_loop_spec api d ua w Hua Hnd Hsub) as (ua' & Hres & _ & Hwf' & _).
    rewrite Hres.
    unfold Dict.wf in Hdwf. simpl in Hdwf. inversion Hdwf as [|? ? Hk Hdwf']; subst.
    destruct (IH (Dict.set ntu k ua')
                (wld (_purge_inactive_users_for_network api ua d w)))
      as (ntu' & Hres' & Hkeys & Hwfs').
    + now apply DictFacts.wf_set.
    + now apply Forall_snd_set.
    + assumption.
    + intros k' d' Hin'.
      destruct (Hdue k' d' (or_intror Hin')) as (Hnd' & ua0 & Hin0 & Hsub0).
      split; [assumption|]. exists ua0. split; [|assumption].
      apply in_set_other; [assumption|]. intros ->. apply Hk.
      change k with (fst (k, d')). now apply in_map.
    + exists ntu'. cbn [res]. split; [assumption|]. split; [|assumption].
      rewrite Hkeys. apply DictFacts.keys_set_in.
      change k with (fst (k, ua)). now apply in_map.
Qed.

(** Whatever it is given, the purge makes no presence or discovery
    request and requests deactivation only of accounts in a due list. *)
Lemma purge_networks_events due : forall ntu w,
  let o := purge_networks api ntu due w in
  probed_users (evs o) = [] /\
  discovery_calls (evs o) = [] /\
  (forall u, In u (deactivated_users (evs o)) ->
             exists k d, In (k, d) due /\ In u d).
Proof.
  induction due as [|[k d] due IH]; intros ntu w.
  - simpl. split; [reflexivity|split; [reflexivity|intros ? []]].
  - cbv zeta. rewrite purge_networks_cons.
    destruct (Dict.get ntu k) as [ua|];
      [|simpl; split; [reflexivity|split; [reflexivity|intros ? []]]].
    cbv zeta.
    destruct (purge_loop_events api d ua w) as (Hd1 & Hp1 & Hx1).
    set (o1 := _purge_inactive_users_for_network api ua d w) in *.
    destruct (res o1) as [ua'|e]; cbn [res evs wld].
    + destruct (IH (Dict.set ntu k ua') (wld o1)) as (Hp2 & Hd2 & Hx2).
      split; [now rewrite probed_users_app, Hp1, Hp2|].
      split; [now rewrite discovery_calls_app, Hd1, Hd2|].
      intros u Hu. rewrite deactivated_users_app in Hu.
      apply in_app_or in Hu as [Hu|Hu].
      * exists k, d. simpl. auto.
      * destruct (Hx2 u Hu) as (k' & d' & Hin & Hud). exists k', d'. simpl. auto.
    + split; [assumption|]. split; [assumption|].
      intros u Hu. exists k, d. simpl. auto.
Qed.


End PurgeLoop.

(* ------------------------------------------------------------------ *)
(** ** The pass *)

Section PassFacts.

Context {World : Type}.
Variable api : GMatrixHttpApi World.
Variable imp : Imports.
Implicit Types (w : World) (g : UserActivityInfo).

Lemma run_user_purger_eq g now w :
  run_user_purger api imp g now w =
  let fetch := fetch_new_members_due g now in
  let o1 := update_networks api imp fetch now (network_to_users g) [] w in
  match res o1 with
  | Raise e => mkOut (Raise e) (evs o1) (wld o1)
  | Ok (items, due) =>
      let o2 := purge_networks api items due (wld o1) in
      mkOut (match res o2 with
             | Ok ntu => Ok (mkInfo (if fetch then now else last_update g) ntu)
             | Raise e => Raise e
             end)
            (evs o1 ++ evs o2) (wld o2)
  end.
Proof.
  unfold run_user_purger, update_user_activity, purge_inactive_users,
    fetch_new_members_due.
  cbv zeta.
  set (fetch := last_update g <? now - USER_PURGING_THRESHOLD).
  apply out_eq; rewrite ?bind_res, ?bind_evs, ?bind_wld;
    rewrite ?bind_res, ?bind_evs, ?bind_wld;
    destruct (res (update_networks api imp fetch now (network_to_users g) [] w))
      as [[items due]|e];
    cbn [res evs wld ret app network_to_users last_update]; rewrite ?app_nil_r;
    try reflexivity;
    rewrite ?bind_res, ?bind_evs, ?bind_wld;
    destruct (res (purge_networks api items due _));
    cbn [res evs wld ret app]; rewrite ?app_nil_r;
    destruct fetch; reflexivity.
Qed.

(** The pass completes on a well-formed ledger when, with a refresh due,
    every network key is a number, and the server lists well-formed ids. *)
Lemma run_user_purger_ok g now w :
  ledger_wf g ->
  (fetch_new_members_due g now = true ->
   forall k, In k (Dict.keys (network_to_users g)) -> py_int imp k <> None) ->
  members_have_colon api ->
  exists g',
    res (run_user_purger api imp g now w) = Ok g' /\
    last_update g' = (if fetch_new_members_due g now then now else last_update g) /\
    Dict.keys (network_to_users g') = Dict.keys (network_to_users g) /\
    ledger_wf g'.
Proof.
  intros [Hwf Hwfs] Hint Hcolon. rewrite run_user_purger_eq. cbv zeta.
  destruct (update_networks_ok api imp (fetch_new_members_due g now) now
              (network_to_users g) [] w Hwfs Hint Hcolon)
    as (items & due & Hres1 & Hkeys1 & Hwfs1 & Hdwf & Hdue).
  rewrite Hres1.
  assert (Hwf1 : Dict.wf items) by (unfold Dict.wf; now rewrite Hkeys1).
  destruct (purge_networks_ok api due items
              (wld (update_networks api imp (fetch_new_members_due g now) now
                      (network_to_users g) [] w)) Hwf1 Hwfs1)
    as (ntu & Hres2 & Hkeys2 & Hwfs2).
  - apply Hdwf. constructor.
  - intros k d Hin. destruct (Hdue k d Hin) as [[]|H]. exact H.
  - rewrite Hres2. cbn [res]. eexists. split; [reflexivity|]. cbn.
    split; [reflexivity|].
    split; [change (map fst ntu) with (Dict.keys ntu); congruence|].
    split; [|assumption]. cbn. unfold Dict.wf. now rewrite Hkeys2.
Qed.

Lemma run_user_purger_last_update g now w g' :
  res (run_user_purger api imp g now w) = Ok g' ->
  last_update g' = (if fetch_new_members_due g now then now else last_update g).
Proof.
  rewrite run_user_purger_eq. cbv zeta.
  destruct (res (update_networks _ _ _ _ _ _ _)) as [[items due]|e]; [|discriminate].
  cbn [res]. destruct (res (purge_networks _ _ _ _)); [|discriminate].
  intros H. inversion H. reflexivity.
Qed.

(** A pass in which no refresh is due makes no discovery request. *)
Lemma run_user_purger_no_refresh g now w :
  fetch_new_members_due g now = false ->
  discovery_calls (evs (run_user_purger api imp g now w)) = [].
Proof.
  intros Hf. rewrite run_user_purger_eq. cbv zeta. rewrite Hf.
  destruct (update_networks_events api imp false now (network_to_users g) [] w)
    as (_ & Hd1 & _).
  specialize (Hd1 eq_refl).
  destruct (res (update_networks _ _ _ _ _ _ _)) as [[items due]|e];
    cbn [evs]; [|assumption].
  match goal with |- context [purge_networks api ?a ?b ?c] =>
    destruct (purge_networks_events api b a c) as (_ & Hd2 & _) end.
  now rewrite discovery_calls_app, Hd1, Hd2.
Qed.

(** Whatever the ledger: a pass requests the deactivation only of
    accounts that the server reported offline earlier in the same pass,
    with a last-seen time below the deadline. *)
Lemma run_user_purger_deactivates_confirmed g now w u :
  In u (deactivated_users (evs (run_user_purger api imp g now w))) ->
  exists p, In (EvGetPresence u (Some p)) (evs (run_user_purger api imp g now w)) /\
            now - last_active_ago_of p < now - USER_PURGING_THRESHOLD /\
            presence p = "offline".
Proof.
  rewrite run_user_purger_eq. cbv zeta.
  destruct (update_networks_events api imp (fetch_new_members_due g now) now
              (network_to_users g) [] w) as (Hx1 & _ & Hdue).
  set (o1 := update_networks _ _ _ _ _ _ _) in *.
  destruct (res o1) as [[items due]|e] eqn:Hres1; cbn [evs].
  - rewrite deactivated_users_app, Hx1. simpl. intros Hu.
    destruct (purge_networks_events api due items (wld o1)) as (_ & _ & Hx2).
    destruct (Hx2 u Hu) as (k & d & Hin & Hud).
    destruct (Hdue items due k d u eq_refl Hin Hud) as [[]|(p & Hp & Hrest)].
    exists p. split; [apply in_or_app; auto | assumption].
  - rewrite Hx1. intros [].
Qed.

End PassFacts.

(* ------------------------------------------------------------------ *)
(** ** Membership sync: what a new member gets *)

(** A member of the discovery room that passes the filter of the sync
    (its second colon-separated piece is the server's name, and it does not
    start with "@admin") and is not yet in the segment is inserted with
    last-seen time [now - USER_PURGING_THRESHOLD - 1].  That makes it a
    candidate at once, so the probe of this pass asks for its presence; and
    no pass requests a deactivation for an account unless the server has
    reported that account offline earlier in the same pass. *)
Lemma membership_sync_inserts_filtered
    {World} (api : GMatrixHttpApi World) (imp : Imports) ua room now w ms ua1 m :
  fst (api_get_members api (room_id room) w) = Some ms ->
  res (_fetch_new_members_for_network api ua room now w) = Ok ua1 ->
  In m ms ->
  is_room_member (api_netloc api) m = true ->
  Dict.get ua m = None ->
  Dict.get ua1 m = Some (now - USER_PURGING_THRESHOLD - 1) /\
  candidate ua1 now m /\
  In m (possible_candidates ua1 (now - USER_PURGING_THRESHOLD)) /\
  (forall g w',
     let o := run_user_purger api imp g now w' in
     In m (deactivated_users (evs o)) ->
     exists p, In (EvGetPresence m (Some p)) (evs o) /\ presence p = "offline").
Proof.
  intros Hms Hres Hin Hfilter Hnew.
  rewrite fetch_new_members_eq in Hres. simpl in Hres. rewrite Hms in Hres.
  destruct (room_members_of (api_netloc api) ms) as [kept|] eqn:E; [|discriminate].
  inversion Hres; subst ua1. apply room_members_of_ok in E. subst kept.
  assert (Hget : Dict.get (add_new_members (filter (is_room_member (api_netloc api)) ms)
                             ua now) m = Some (now - USER_PURGING_THRESHOLD - 1)).
  { apply add_new_members_new; [|assumption]. apply filter_In. auto. }
  split; [assumption|]. split; [|split].
  - exists (now - USER_PURGING_THRESHOLD - 1). split; [assumption | lia].
  - unfold possible_candidates. apply in_map_iff.
    exists (m, now - USER_PURGING_THRESHOLD - 1). split; [reflexivity|].
    apply filter_In. split; [now apply DictFacts.get_In | apply Z.ltb_lt; lia].
  - intros g w' o Hd.
    destruct (run_user_purger_deactivates_confirmed api imp g now w' m Hd)
      as (p & Hp & _ & Hoff).
    exists p. auto.
Qed.

(* ------------------------------------------------------------------ *)
(** ** Refresh throttling *)

(** C6. Two passes within one threshold: if the first pass, run at [now1],
    completes and the second runs on the ledger it returned at a time
    [now2] with [now2 - now1 <= USER_PURGING_THRESHOLD], then at most one of
    the two asks any discovery room for its members.  A pass asks only if
    [last_update < now - USER_PURGING_THRESHOLD] on entry, and a pass that
    finds this condition true returns a ledger with [last_update = now]. *)
Theorem refresh_at_most_once_per_threshold
    {World} (api1 api2 : GMatrixHttpApi World) (imp : Imports) g now1 now2 w1 w2 g1 :
  res (run_user_purger api1 imp g now1 w1) = Ok g1 ->
  now2 - now1 <= USER_PURGING_THRESHOLD ->
  let e1 := evs (run_user_purger api1 imp g now1 w1) in
  let e2 := evs (run_user_purger api2 imp g1 now2 w2) in
  (sync_calls e1 = [] \/ sync_calls e2 = []) /\
  (sync_calls e1 <> [] -> last_update g < now1 - USER_PURGING_THRESHOLD) /\
  (sync_calls e2 <> [] -> last_update g1 < now2 - USER_PURGING_THRESHOLD) /\
  last_update g1 =
    (if last_update g <? now1 - USER_PURGING_THRESHOLD then now1 else last_update g).
Proof.
  intros Hres Hwin e1 e2.
  pose proof (run_user_purger_last_update api1 imp g now1 w1 g1 Hres) as Hlu.
  assert (Honly : forall (api : GMatrixHttpApi World) g0 t w0,
             sync_calls (evs (run_user_purger api imp g0 t w0)) <> [] ->
             last_update g0 < t - USER_PURGING_THRESHOLD).
  { intros api g0 t w0 Hs.
    destruct (fetch_new_members_due g0 t) eqn:Hf; [now apply Z.ltb_lt|].
    exfalso. apply Hs.
    now apply sync_calls_discovery, run_user_purger_no_refresh. }
  split; [|split; [apply Honly | split; [apply Honly | exact Hlu]]].
  destruct (fetch_new_members_due g now1) eqn:Hf.
  - right. apply sync_calls_discovery, run_user_purger_no_refresh.
    unfold fetch_new_members_due. rewrite Hlu. apply Z.ltb_ge. lia.
  - left. now apply sync_calls_discovery, run_user_purger_no_refresh.
Qed.

Lemma refresh_at_most_once_per_threshold_witness :
  exists g1,
    res (run_user_purger Examples.srv Examples.raiden Examples.ledger_stale
           Examples.now_ex tt) = Ok g1 /\
    sync_calls (evs (run_user_purger Examples.srv Examples.raiden g1
                       (Examples.now_ex + USER_PURGING_THRESHOLD) tt)) = [].
Proof.
  eexists. split; [reflexivity|].
  destruct (refresh_at_most_once_per_threshold Examples.srv Examples.srv
              Examples.raiden Examples.ledger_stale Examples.now_ex
              (Examples.now_ex + USER_PURGING_THRESHOLD) tt tt _ eq_refl)
    as ([H|H] & _); [lia | vm_compute in H; discriminate H | exact H].
Defined.

(* ------------------------------------------------------------------ *)
(** ** Networks whose discovery room cannot be resolved *)

Section MissingRoom.

Context {World : Type}.
Variable api : GMatrixHttpApi World.
Variable imp : Imports.
Implicit Types (w : World) (items : Dict.t (Dict.t Z)) (due : Dict.t (list string)).

(** With a refresh due, a network whose room lookup fails takes one turn
    that consists of the lookup alone. *)
Lemma update_network_skipped now k n ua w :
  py_int imp k = Some n ->
  fst (api_get_room_id api (lookup_alias api imp n) w) = None ->
  update_network api imp true now k ua w =
  mkOut (Ok (ua, None)) [EvGetRoomId (lookup_alias api imp n) None]
        (snd (api_get_room_id api (lookup_alias api imp n) w)).
Proof.
  intros Hint Hnone. rewrite update_network_fetch, Hint. cbv zeta.
  now rewrite Hnone.
Qed.



(** When no room can be resolved at all, the refresh loop returns the
    segments and the due lists as it found them. *)
Lemma update_networks_no_rooms now items : forall due0 w,
  (forall a w', fst (api_get_room_id api a w') = None) ->
  (forall k, In k (Dict.keys items) -> py_int imp k <> None) ->
  res (update_networks api imp true now items due0 w) = Ok (items, due0).
Proof.
  induction items as [|[k ua] items IH]; intros due0 w Hfail Hint; [reflexivity|].
  rewrite update_networks_cons. cbv zeta.
  destruct (py_int imp k) as [n|] eqn:Hn; [|destruct (Hint k); simpl; auto].
  rewrite (update_network_skipped now k n ua w Hn (Hfail _ _)). cbn [res wld].
  rewrite IH; [reflexivity | assumption |].
  intros k' Hk'. apply Hint. simpl; auto.
Qed.

End MissingRoom.




(* ------------------------------------------------------------------ *)
(** ** The refresh time *)

(** C10. When a refresh is due on entry, the ledger a pass returns has
    [last_update = now], whatever the server answered to the room lookups
    and member requests; so no pass run on that ledger within the next
    [USER_PURGING_THRESHOLD] seconds makes any discovery request.  In
    particular a pass in which no room can be resolved completes, adds no
    account, and returns the ledger with only [last_update] advanced; and on
    a well-formed ledger the pass completes whenever the network keys are
    numbers and the member ids the server lists (if any) are well formed. *)
Theorem refresh_time_advances_even_if_refresh_fails
    {World} (api api2 : GMatrixHttpApi World) (imp : Imports) g now w :
  fetch_new_members_due g now = true ->
  (forall g1, res (run_user_purger api imp g now w) = Ok g1 ->
     last_update g1 = now /\
     forall later w2,
       later - now <= USER_PURGING_THRESHOLD ->
       discovery_calls (evs (run_user_purger api2 imp g1 later w2)) = []) /\
  ((forall a w', fst (api_get_room_id api a w') = None) ->
   (forall k, In k (Dict.keys (network_to_users g)) -> py_int imp k <> None) ->
   res (run_user_purger api imp g now w) = Ok (mkInfo now (network_to_users g))) /\
  (ledger_wf g ->
   (forall k, In k (Dict.keys (network_to_users g)) -> py_int imp k <> None) ->
   members_have_colon api ->
   exists g1, res (run_user_purger api imp g now w) = Ok g1 /\ last_update g1 = now).
Proof.
  intros Hdue. split; [|split].
  - intros g1 Hres.
    pose proof (run_user_purger_last_update api imp g now w g1 Hres) as Hlu.
    rewrite Hdue in Hlu. split; [assumption|].
    intros later w2 Hlater. apply run_user_purger_no_refresh.
    unfold fetch_new_members_due. rewrite Hlu. apply Z.ltb_ge. lia.
  - intros Hfail Hint. rewrite run_user_purger_eq. cbv zeta. rewrite Hdue.
    rewrite (update_networks_no_rooms api imp now (network_to_users g) [] w Hfail Hint).
    reflexivity.
  - intros Hwf Hint Hcolon.
    destruct (run_user_purger_ok api imp g now w Hwf (fun _ => Hint) Hcolon)
      as (g1 & Hres & Hlu & _).
    exists g1. rewrite Hdue in Hlu. auto.
Qed.

Lemma refresh_time_advances_even_if_refresh_fails_witness :
  res (run_user_purger Examples.srv_no_rooms Examples.raiden Examples.ledger_stale
         Examples.now_ex tt) =
  Ok (mkInfo Examples.now_ex (network_to_users Examples.ledger_stale)).
Proof.
  apply (refresh_time_advances_even_if_refresh_fails Examples.srv_no_rooms
           Examples.srv_no_rooms Examples.raiden Examples.ledger_stale
           Examples.now_ex tt eq_refl).
  - intros a []. reflexivity.
  - intros k [<-|[]]. discriminate.
Defined.

(* ------------------------------------------------------------------ *)
(** ** Purging twice *)

Section PurgeAgain.

Context {World : Type}.
Variable api : GMatrixHttpApi World.

(** What the purge does with each due account: one request each, in
    order; the account is gone after a request that succeeded and keeps its
    record after one that failed; nothing else changes. *)
Lemma purge_removes_exactly_the_deactivated ua due w :
  Dict.wf ua -> NoDup due -> (forall u, In u due -> In u (Dict.keys ua)) ->
  let o := _purge_inactive_users_for_network api ua due w in
  exists ua',
    res o = Ok ua' /\
    deactivated_users (evs o) = due /\
    (forall u, In (EvDeactivate u true) (evs o) -> Dict.get ua' u = None) /\
    (forall u, In (EvDeactivate u false) (evs o) -> Dict.get ua' u = Dict.get ua u) /\
    (forall u, ~ In u due -> Dict.get ua' u = Dict.get ua u).
Proof.
  intros Hwf Hnd Hsub o.
  destruct (purge_loop_spec api due ua w Hwf Hnd Hsub)
    as (ua' & Hres & Hd & _ & Hok & Hfail & Hrest & _).
  exists ua'. auto.
Qed.

(** Purging the same due list again after its first account was removed
    raises [KeyError] before any request is made. *)
Lemma purge_again_raises_KeyError ua ua' u due w w' :
  Dict.wf ua -> NoDup (u :: due) ->
  (forall x, In x (u :: due) -> In x (Dict.keys ua)) ->
  fst (api_deactivate api u w) = true ->
  res (_purge_inactive_users_for_network api ua (u :: due) w) = Ok ua' ->
  res (_purge_inactive_users_for_network api ua' (u :: due) w') = Raise KeyError /\
  evs (_purge_inactive_users_for_network api ua' (u :: due) w') = [EvSleep].
Proof.
  intros Hwf Hnd Hsub Hok Hres.
  destruct (purge_loop_spec api (u :: due) ua w Hwf Hnd Hsub)
    as (ua1 & Hres1 & _ & _ & Hgone & _).
  assert (Heq : ua1 = ua') by congruence. subst ua1.
  assert (Hget : Dict.get ua' u = None).
  { apply Hgone. cbn [_purge_inactive_users_for_network].
    rewrite bind_evs, purge_user_eq.
    destruct (DictFacts.keys_get ua u (Hsub u (or_introl eq_refl))) as [v ->].
    rewrite Hok. simpl. auto. }
  cbn [_purge_inactive_users_for_network].
  rewrite bind_res, bind_evs, purge_user_eq, Hget. simpl. auto.
Qed.

End PurgeAgain.

(** C4, as stated, fails.  Purging a segment that holds one due account
    removes the account; purging with the same due list again is not a
    no-op: it raises [KeyError], without any request to the server. *)
Theorem second_purge_with_same_due_list_raises :
  let o1 := _purge_inactive_users_for_network Examples.srv
              [("@A:srv"%string, 0)] ["@A:srv"%string] tt in
  res o1 = Ok [] /\
  evs o1 = [EvDeactivate "@A:srv" true; EvSleep] /\
  let o2 := _purge_inactive_users_for_network Examples.srv
              [] ["@A:srv"%string] (wld o1) in
  res o2 = Raise KeyError /\ evs o2 = [EvSleep].
Proof.
  vm_compute. auto.
Qed.

(* ------------------------------------------------------------------ *)
(** ** Loading the ledger *)

Section LoadFacts.

Variable imp : Imports.

Lemma get_of_networks nets k :
  Dict.get (PyJson.of_networks nets) k =
  option_map PyJson.of_user_activity (Dict.get nets k).
Proof.
  induction nets as [|[k' ua] nets IH]; simpl; [reflexivity|].
  destruct (String.eqb k' k); auto.
Qed.

Lemma set_of_networks nets k ua :
  Dict.set (PyJson.of_networks nets) k (PyJson.of_user_activity ua) =
  PyJson.of_networks (Dict.set nets k ua).
Proof.
  induction nets as [|[k' ua'] nets IH]; simpl; [reflexivity|].
  destruct (String.eqb k' k); simpl; [reflexivity | now rewrite IH].
Qed.

(** On a well-typed document the loop over [Networks] is its typed
    counterpart. *)
Lemma add_networks_typed ns : forall t nets,
  add_networks imp (PyJson.of_UserActivityInfo (mkInfo t nets)) ns =
  Ok (PyJson.of_UserActivityInfo
        (mkInfo t (fold_left (fun d n => if Dict.mem d (py_str imp n) then d
                                         else Dict.set d (py_str imp n) [])
                             ns nets))).
Proof.
  induction ns as [|n ns IH]; intros t nets; [reflexivity|].
  cbn [add_networks fold_left].
  assert (Hstep : add_network imp (PyJson.of_UserActivityInfo (mkInfo t nets)) n =
                  Ok (PyJson.of_UserActivityInfo
                        (mkInfo t (if Dict.mem nets (py_str imp n) then nets
                                   else Dict.set nets (py_str imp n) [])))).
  { unfold add_network, PyJson.of_UserActivityInfo. cbn.
    unfold Dict.mem. rewrite get_of_networks.
    destruct (Dict.get nets (py_str imp n)); cbn; [reflexivity|].
    change (JDict []) with (PyJson.of_user_activity []).
    now rewrite set_of_networks. }
  rewrite Hstep. apply IH.
Qed.

Lemma as_user_activity_of ua :
  PyJson.as_user_activity (PyJson.of_user_activity ua) = Some ua.
Proof.
  unfold PyJson.as_user_activity, PyJson.of_user_activity.
  induction ua as [|[u n] ua IH]; simpl; [reflexivity|]. now rewrite IH.
Qed.

Lemma traverse_of_networks nets :
  PyJson.traverse
    (fun '(k, v) => match PyJson.as_user_activity v with
                    | Some ua => Some (k, ua)
                    | None => None
                    end) (PyJson.of_networks nets) = Some nets.
Proof.
  induction nets as [|[k ua] nets IH]; [reflexivity|].
  cbn [PyJson.of_networks map PyJson.traverse].
  rewrite as_user_activity_of. fold (PyJson.of_networks nets). now rewrite IH.
Qed.

(** Writing a ledger and reading it back as a [UserActivityInfo] gives the
    ledger. *)
Lemma as_UserActivityInfo_of g :
  PyJson.as_UserActivityInfo (PyJson.of_UserActivityInfo g) = Some g.
Proof.
  destruct g as [t nets]. unfold PyJson.as_UserActivityInfo, PyJson.of_UserActivityInfo.
  cbv [Dict.get String.eqb Ascii.eqb Bool.eqb last_update network_to_users].
  now rewrite traverse_of_networks.
Qed.

Lemma with_networks_inv ns : forall nets : Dict.t (Dict.t Z),
  Dict.wf nets -> Forall (fun kv => Dict.wf (snd kv)) nets ->
  let nets' := fold_left (fun d n => if Dict.mem d (py_str imp n) then d
                                     else Dict.set d (py_str imp n) []) ns nets in
  Dict.wf nets' /\ Forall (fun kv => Dict.wf (snd kv)) nets' /\
  (forall k, In k (Dict.keys nets') <->
             In k (Dict.keys nets) \/ exists n, In n ns /\ k = py_str imp n).
Proof.
  induction ns as [|n ns IH]; intros nets Hwf Hwfs; cbn [fold_left].
  - repeat split; auto. intros [H|(n & [] & _)]; auto.
  - set (nets1 := if Dict.mem nets (py_str imp n) then nets
                  else Dict.set nets (py_str imp n) []).
    assert (H1 : Dict.wf nets1)
      by (unfold nets1; destruct (Dict.mem _ _); [assumption | now apply DictFacts.wf_set]).
    assert (H2 : Forall (fun kv => Dict.wf (snd kv)) nets1).
    { unfold nets1. destruct (Dict.mem _ _); [assumption|].
      apply Forall_snd_set; [assumption | constructor]. }
    assert (H3 : forall k, In k (Dict.keys nets1) <->
                           In k (Dict.keys nets) \/ k = py_str imp n).
    { intros k. unfold nets1. destruct (Dict.mem nets (py_str imp n)) eqn:E.
      - apply DictFacts.mem_true in E. split; [auto | intros [H| ->]; auto].
      - rewrite DictFacts.in_keys_set. tauto. }
    destruct (IH nets1 H1 H2) as (Hwf' & Hwfs' & Hkeys).
    split; [assumption|]. split; [assumption|].
    intros k. etransitivity; [apply Hkeys|]. rewrite H3. split.
    + intros [[H| ->]|(m & Hm & ->)]; [auto | right; exists n; simpl; auto
                                      | right; exists m; simpl; auto].
    + intros [H|(m & [<-|Hm] & ->)]; [auto | auto | right; exists m; auto].
Qed.

End LoadFacts.

Section PurgeEntry.

Context {World : Type}.
Variable api : GMatrixHttpApi World.
Variable imp : Imports.

(** A file that holds a ledger: the pass runs on that ledger, with an
    empty segment added for every network it lacks. *)
Lemma purge_of_ledger_document now0 now g w :
  purge api imp now0 now (Document (PyJson.of_UserActivityInfo g)) w =
  Some (run_user_purger api imp
          (mkInfo (last_update g) (with_networks imp (network_to_users g))) now w).
Proof.
  destruct g as [t nets]. unfold purge, load_user_activity.
  rewrite add_networks_typed, as_UserActivityInfo_of. reflexivity.
Qed.

Lemma load_user_activity_fallback now0 file :
  file = FileNotFound \/ file = NotJSON ->
  load_user_activity now0 file =
  Ok (PyJson.of_UserActivityInfo (mkInfo (now0 - USER_PURGING_THRESHOLD - 1) [])).
Proof. intros [-> | ->]; reflexivity. Qed.

Lemma purge_fallback now0 now file w :
  file = FileNotFound \/ file = NotJSON ->
  purge api imp now0 now file w =
  Some (run_user_purger api imp
          (mkInfo (now0 - USER_PURGING_THRESHOLD - 1) (with_networks imp [])) now w).
Proof.
  intros Hfile. unfold purge. rewrite (load_user_activity_fallback now0 file Hfile).
  rewrite add_networks_typed, as_UserActivityInfo_of. reflexivity.
Qed.

End PurgeEntry.

(** C3, as the code has it.  When the ledger file does not exist or is not
    JSON, loading falls back to a ledger without networks whose
    [last_update] is [now0 - USER_PURGING_THRESHOLD - 1]; the pass then runs
    on that ledger with an empty segment for every network of [Networks],
    finds a refresh due, and completes, returning a ledger with
    [last_update = now] -- provided the clock did not go back since the
    load, the network ids print and parse as numbers, and the server lists
    well-formed member ids. *)
Theorem absent_or_non_json_ledger_falls_back
    {World} (api : GMatrixHttpApi World) (imp : Imports) now0 now file w :
  file = FileNotFound \/ file = NotJSON ->
  now0 <= now ->
  (forall n, In n (Networks imp) -> py_int imp (py_str imp n) <> None) ->
  members_have_colon api ->
  let fallback := mkInfo (now0 - USER_PURGING_THRESHOLD - 1) [] in
  let started := mkInfo (last_update fallback) (with_networks imp []) in
  load_user_activity now0 file = Ok (PyJson.of_UserActivityInfo fallback) /\
  purge api imp now0 now file w = Some (run_user_purger api imp started now w) /\
  fetch_new_members_due started now = true /\
  (forall k, In k (Dict.keys (network_to_users started)) <->
             exists n, In n (Networks imp) /\ k = py_str imp n) /\
  exists g',
    res (run_user_purger api imp started now w) = Ok g' /\
    last_update g' = now /\
    Dict.keys (network_to_users g') = Dict.keys (network_to_users started).
Proof.
  intros Hfile Hclock Hint Hcolon fallback started.
  destruct (with_networks_inv imp (Networks imp) [])
    as (Hwf & Hwfs & Hkeys); [constructor | constructor |].
  fold (with_networks imp []) in Hwf, Hwfs, Hkeys.
  assert (Hdue : fetch_new_members_due started now = true).
  { unfold fetch_new_members_due, started, fallback. cbn [last_update].
    apply Z.ltb_lt. lia. }
  assert (Hk : forall k, In k (Dict.keys (network_to_users started)) <->
                         exists n, In n (Networks imp) /\ k = py_str imp n).
  { intros k. unfold started. cbn [network_to_users]. rewrite Hkeys. simpl. tauto. }
  split; [now apply load_user_activity_fallback|].
  split; [now apply purge_fallback|].
  split; [assumption|]. split; [assumption|].
  destruct (run_user_purger_ok api imp started now w) as (g' & Hres & Hlu & Hkeys' & _).
  - split; assumption.
  - intros _ k Hin. apply Hk in Hin as (n & Hn & ->). now apply Hint.
  - assumption.
  - exists g'. rewrite Hdue in Hlu. auto.
Qed.

Lemma srv_members_have_colon : members_have_colon Examples.srv.
Proof.
  intros room [] ms H. cbn in H.
  match type of H with context [if ?b then _ else _] => destruct b end;
    [|discriminate].
  inversion H; subst. repeat constructor.
Qed.

Lemma absent_or_non_json_ledger_falls_back_witness :
  exists g',
    option_map res (purge Examples.srv Examples.raiden Examples.now_ex
                      (Examples.now_ex + 1) NotJSON tt) = Some (Ok g') /\
    last_update g' = Examples.now_ex + 1.
Proof.
  destruct (absent_or_non_json_ledger_falls_back Examples.srv Examples.raiden
              Examples.now_ex (Examples.now_ex + 1) NotJSON tt)
    as (_ & Hpurge & _ & _ & g' & Hres & Hlu & _).
  - right. reflexivity.
  - unfold Examples.now_ex. lia.
  - intros n Hn. simpl in Hn.
    destruct Hn as [<-|[<-|[<-|[<-|[<-|[<-|[]]]]]]]; discriminate.
  - exact srv_members_have_colon.
  - exists g'. rewrite Hpurge. cbn [option_map]. rewrite Hres. auto.
Defined.

(** C3, as stated, fails.  A ledger file holding the JSON document [[]]
    loads as that list: there is no fallback, and the loop over [Networks]
    raises [TypeError] at [global_user_activity["network_to_users"]].  The
    document [{}] raises [KeyError] there, and a file whose bytes are not
    UTF-8 raises [UnicodeDecodeError] from [read_text]; none of them is
    caught. *)
Lemma wrong_shape_ledger_is_not_caught :
  load_user_activity Examples.now_ex (Document (JList [])) = Ok (JList []) /\
  purge Examples.srv Examples.raiden Examples.now_ex Examples.now_ex
    (Document (JList [])) tt = Some (mkOut (Raise TypeError) [] tt) /\
  purge Examples.srv Examples.raiden Examples.now_ex Examples.now_ex
    (Document (JDict [])) tt = Some (mkOut (Raise KeyError) [] tt) /\
  purge Examples.srv Examples.raiden Examples.now_ex Examples.now_ex
    (Unreadable UnicodeDecodeError) tt = Some (mkOut (Raise UnicodeDecodeError) [] tt).
Proof.
  repeat split; reflexivity.
Qed.

(* ------------------------------------------------------------------ *)
(** ** Further properties of the pass *)

Lemma paced_app l1 l2 : paced l1 = true -> paced l2 = true -> paced (l1 ++ l2) = true.
Proof.
  intros H1 H2. induction l1 as [|e l1 IH]; [assumption|].
  destruct e; simpl in *; auto;
    (destruct l1 as [|e' l1']; [discriminate|];
     destruct e'; try discriminate; simpl app; auto).
Qed.

Section Pacing.

Context {World : Type}.
Variable api : GMatrixHttpApi World.
Variable imp : Imports.

Lemma probe_loop_paced now dl cands : forall st w,
  paced (evs (probe_loop api now dl cands st w)) = true.
Proof.
  induction cands as [|u cands IH]; intros st w; [reflexivity|].
  cbn [probe_loop]. rewrite bind_evs, probe_user_eq. cbn [res evs wld].
  apply (paced_app [_; _]); [reflexivity | apply IH].
Qed.

Lemma probe_network_paced now ua w : paced (evs (probe_network api now ua w)) = true.
Proof.
  unfold probe_network. rewrite bind_evs.
  apply paced_app; [apply probe_loop_paced|].
  destruct (res _) as [[ua' due]|e]; reflexivity.
Qed.

Lemma update_network_paced fetch now k ua w :
  paced (evs (update_network api imp fetch now k ua w)) = true.
Proof.
  destruct fetch; [|rewrite update_network_no_fetch; apply probe_network_paced].
  rewrite update_network_fetch.
  destruct (py_int imp k) as [n|]; [|reflexivity]. cbv zeta.
  destruct (fst (api_get_room_id api (lookup_alias api imp n) w)) as [i|]; [|reflexivity].
  rewrite fetch_new_members_eq. cbn [res evs wld room_id].
  match goal with |- context [fst (api_get_members api i ?w1)] =>
    destruct (fst (api_get_members api i w1)) as [ms|] end; cbn [evs].
  - destruct (room_members_of (api_netloc api) ms); cbn [evs]; [|reflexivity].
    apply (paced_app [_; _]); [reflexivity | apply probe_network_paced].
  - apply (paced_app [_; _]); [reflexivity | apply probe_network_paced].
Qed.

Lemma update_networks_paced fetch now items : forall due0 w,
  paced (evs (update_networks api imp fetch now items due0 w)) = true.
Proof.
  induction items as [|[k ua] items IH]; intros due0 w; [reflexivity|].
  rewrite update_networks_cons. cbv zeta.
  pose proof (update_network_paced fetch now k ua w) as H1.
  destruct (res (update_network api imp fetch now k ua w)) as [[ua' odue]|e];
    cbn [evs]; [|assumption].
  apply paced_app; [assumption | apply IH].
Qed.

Lemma purge_loop_paced due : forall ua w,
  paced (evs (_purge_inactive_users_for_network api ua due w)) = true.
Proof.
  induction due as [|u due IH]; intros ua w; [reflexivity|].
  cbn [_purge_inactive_users_for_network]. rewrite bind_evs, purge_user_eq.
  destruct (Dict.get ua u); cbn [res evs wld]; [|reflexivity].
  apply (paced_app [_; _]); [reflexivity | apply IH].
Qed.

Lemma purge_networks_paced due : forall ntu w,
  paced (evs (purge_networks api ntu due w)) = true.
Proof.
  induction due as [|[k d] due IH]; intros ntu w; [reflexivity|].
  rewrite purge_networks_cons.
  destruct (Dict.get ntu k) as [ua|]; [|reflexivity]. cbv zeta.
  pose proof (purge_loop_paced d ua w) as H1.
  destruct (res (_purge_inactive_users_for_network api ua d w)); cbn [evs];
    [|assumption].
  apply paced_app; [assumption | apply IH].
Qed.

End Pacing.

(** X1. Pacing.  Whatever the ledger and whatever the server answers, also
    when the pass ends in an exception, every presence query and every
    deactivation request of a pass is directly followed by a sleep. *)
Theorem pass_sleeps_after_every_probe_and_purge
    {World} (api : GMatrixHttpApi World) (imp : Imports) g now w :
  paced (evs (run_user_purger api imp g now w)) = true.
Proof.
  rewrite run_user_purger_eq. cbv zeta.
  pose proof (update_networks_paced api imp (fetch_new_members_due g now) now
                (network_to_users g) [] w) as H1.
  destruct (res (update_networks _ _ _ _ _ _ _)) as [[items due]|e]; cbn [evs];
    [|assumption].
  apply paced_app; [assumption | apply purge_networks_paced].
Qed.

(** X2. Probe before purge.  The events of a pass split in two parts: the
    first holds every discovery request and every presence query and no
    deactivation request, the second only deactivation requests and sleeps;
    and every account whose deactivation is requested was reported
    "offline" by a presence reply of the first part that put its last-seen
    time below the deadline.  This holds for any ledger and any server. *)
Theorem pass_probes_then_purges_confirmed_accounts
    {World} (api : GMatrixHttpApi World) (imp : Imports) g now w :
  exists probing purging,
    evs (run_user_purger api imp g now w) = probing ++ purging /\
    deactivated_users probing = [] /\
    probed_users purging = [] /\
    discovery_calls purging = [] /\
    forall u, In u (deactivated_users purging) ->
      exists p, In (EvGetPresence u (Some p)) probing /\
                now - last_active_ago_of p < now - USER_PURGING_THRESHOLD /\
                presence p = "offline".
Proof.
  rewrite run_user_purger_eq. cbv zeta.
  destruct (update_networks_events api imp (fetch_new_members_due g now) now
              (network_to_users g) [] w) as (Hx1 & _ & Hdue).
  set (o1 := update_networks _ _ _ _ _ _ _) in *.
  destruct (res o1) as [[items due]|e] eqn:Hres1; cbn [evs].
  - destruct (purge_networks_events api due items (wld o1)) as (Hp2 & Hd2 & Hx2).
    exists (evs o1), (evs (purge_networks api items due (wld o1))).
    repeat (split; [auto; fail|]).
    intros u Hu. destruct (Hx2 u Hu) as (k & d & Hin & Hud).
    destruct (Hdue items due k d u eq_refl Hin Hud) as [[]|H]. exact H.
  - exists (evs o1), []. rewrite app_nil_r.
    repeat (split; [auto; fail|]). intros u [].
Qed.

(** X3. The pass completes.  On a ledger in which every network and every
    account appears once, a pass returns normally -- no [KeyError] in the
    purge, no [IndexError] in the sync -- provided the server lists member
    ids that contain a colon and, when a refresh is due, every network key
    is a number.  It returns the same networks in the same order, each
    account still appearing once, and [last_update] is [now] if a refresh
    was due and unchanged otherwise. *)
Theorem pass_completes_and_keeps_the_networks
    {World} (api : GMatrixHttpApi World) (imp : Imports) g now w :
  ledger_wf g ->
  (fetch_new_members_due g now = true ->
   forall k, In k (Dict.keys (network_to_users g)) -> py_int imp k <> None) ->
  members_have_colon api ->
  exists g',
    res (run_user_purger api imp g now w) = Ok g' /\
    Dict.keys (network_to_users g') = Dict.keys (network_to_users g) /\
    ledger_wf g' /\
    last_update g' = (if last_update g <? now - USER_PURGING_THRESHOLD
                      then now else last_update g).
Proof.
  intros Hwf Hint Hcolon.
  destruct (run_user_purger_ok api imp g now w Hwf Hint Hcolon)
    as (g' & Hres & Hlu & Hkeys & Hwf').
  exists g'. auto.
Qed.

Lemma pass_completes_and_keeps_the_networks_witness :
  exists g',
    res (run_user_purger Examples.srv Examples.raiden Examples.ledger_stale
           Examples.now_ex tt) = Ok g' /\
    Dict.keys (network_to_users g') = ["1"%string].
Proof.
  destruct (pass_completes_and_keeps_the_networks Examples.srv Examples.raiden
              Examples.ledger_stale Examples.now_ex tt)
    as (g' & Hres & Hkeys & _).
  - split; [unfold Dict.wf; simpl; solve_NoDup|].
    repeat constructor; simpl; intuition discriminate.
  - intros _ k [<-|[]]. discriminate.
  - exact srv_members_have_colon.
  - exists g'. split; [exact Hres | exact Hkeys].
Defined.

Section BadKey.

Context {World : Type}.
Variable api : GMatrixHttpApi World.
Variable imp : Imports.


End BadKey.



(** X5. The probe keeps the accounts.  On a segment with unique keys the
    probe returns normally; the segment it returns holds the same accounts
    in the same order; an account that is not a candidate keeps its value
    and is not asked about; the due list has no duplicates and consists of
    candidates; and the probe makes no discovery or deactivation request. *)
Theorem probe_keeps_the_accounts {World} (api : GMatrixHttpApi World) ua now w :
  Dict.wf ua ->
  let deadline := now - USER_PURGING_THRESHOLD in
  let o := _update_user_activity_for_network api ua now w in
  exists ua' due,
    res o = Ok (ua', due) /\
    Dict.keys ua' = Dict.keys ua /\
    (forall u, ~ In u (possible_candidates ua deadline) ->
               Dict.get ua' u = Dict.get ua u /\ ~ In u (probed_users (evs o))) /\
    NoDup due /\
    (forall u, In u due -> In u (possible_candidates ua deadline)) /\
    discovery_calls (evs o) = [] /\
    deactivated_users (evs o) = [].
Proof.
  intros Hwf deadline o.
  destruct (update_for_network_spec api ua now w Hwf)
    as (ua' & due & Hres & Hp & Hd & Hx & Hk & Hnd & _ & Hother & _ & _ & Hdue).
  fold o in Hres, Hp, Hd, Hx, Hdue. fold deadline in Hp, Hother, Hdue.
  exists ua', due.
  split; [assumption|]. split; [assumption|]. split; [|split; [assumption|split]].
  - intros u Hu. split; [now apply Hother | now rewrite Hp].
  - intros u Hu. apply Hdue in Hu as (p & Hin & _).
    rewrite <- Hp. apply in_probed_users. eauto.
  - auto.
Qed.

Lemma probe_keeps_the_accounts_witness :
  Dict.wf Examples.segment_ex /\
  exists ua' due,
    res (_update_user_activity_for_network Examples.srv Examples.segment_ex
           Examples.now_ex tt) = Ok (ua', due) /\
    Dict.keys ua' = Dict.keys Examples.segment_ex.
Proof.
  assert (Hwf : Dict.wf Examples.segment_ex) by (unfold Dict.wf; simpl; solve_NoDup).
  split; [exact Hwf|].
  destruct (probe_keeps_the_accounts Examples.srv Examples.segment_ex
              Examples.now_ex tt Hwf) as (ua' & due & Hres & Hk & _).
  exists ua', due. auto.
Defined.

(* ------------------------------------------------------------------ *)
(** ** Further properties of the membership sync *)

Lemma set_absent {V} (d : Dict.t V) k v :
  Dict.get d k = None -> Dict.set d k v = d ++ [(k, v)].
Proof.
  induction d as [|[k' v'] d IH]; simpl; [reflexivity|].
  destruct (String.eqb k' k); [discriminate|]. intros H. now rewrite IH.
Qed.

Lemma get_app_None {V} (d1 d2 : Dict.t V) k :
  Dict.get (d1 ++ d2) k = None -> Dict.get d1 k = None.
Proof.
  induction d1 as [|[k' v'] d1 IH]; simpl; [reflexivity|].
  destruct (String.eqb k' k); auto.
Qed.

(** The loop of the sync appends: the segment is kept as a prefix, and
    what follows are members that were absent, with the overdue time. *)
Lemma add_new_members_appends now ms : forall ua,
  exists added,
    add_new_members ms ua now = ua ++ added /\
    forall u v, In (u, v) added ->
      v = now - USER_PURGING_THRESHOLD - 1 /\ In u ms /\ Dict.get ua u = None.
Proof.
  induction ms as [|m ms IH]; intros ua; cbn [add_new_members].
  - exists []. rewrite app_nil_r. split; [reflexivity | intros u v []].
  - unfold Dict.mem. destruct (Dict.get ua m) eqn:E.
    + destruct (IH ua) as (added & Heq & Hadded). exists added.
      split; [assumption|]. intros u v Hin.
      destruct (Hadded u v Hin) as (Hv & Hu & Hget). simpl. auto.
    + rewrite (set_absent ua m _ E).
      destruct (IH (ua ++ [(m, now - USER_PURGING_THRESHOLD - 1)]))
        as (added & Heq & Hadded).
      exists ((m, now - USER_PURGING_THRESHOLD - 1) :: added).
      split; [rewrite Heq, <- app_assoc; reflexivity|].
      intros u v [Hin|Hin].
      * inversion Hin; subst. simpl. auto.
      * destruct (Hadded u v Hin) as (Hv & Hu & Hget).
        apply get_app_None in Hget. simpl. auto.
Qed.

(** X6. The sync only appends.  A sync that returns keeps the segment as
    it was -- same accounts, same values, same order -- and appends after it
    only accounts that were absent, that the server listed as members of the
    room, whose second colon-separated piece is the server's name and that
    do not start with "@admin"; each gets the time
    [now - USER_PURGING_THRESHOLD - 1]. *)
Theorem membership_sync_only_appends_local_members
    {World} (api : GMatrixHttpApi World) ua room now w ua1 :
  res (_fetch_new_members_for_network api ua room now w) = Ok ua1 ->
  exists added,
    ua1 = ua ++ added /\
    forall u v, In (u, v) added ->
      v = now - USER_PURGING_THRESHOLD - 1 /\
      Dict.get ua u = None /\
      (exists ms, fst (api_get_members api (room_id room) w) = Some ms /\ In u ms) /\
      nth_error (PyStr.split ":" u) 1 = Some (api_netloc api) /\
      PyStr.startswith u "@admin" = false.
Proof.
  rewrite fetch_new_members_eq. cbn [res].
  destruct (fst (api_get_members api (room_id room) w)) as [ms|].
  - destruct (room_members_of (api_netloc api) ms) as [kept|] eqn:E; [|discriminate].
    intros H. inversion H; subst ua1. apply room_members_of_ok in E. subst kept.
    destruct (add_new_members_appends now (filter (is_room_member (api_netloc api)) ms) ua)
      as (added & Heq & Hadded).
    exists added. split; [assumption|].
    intros u v Hin. destruct (Hadded u v Hin) as (Hv & Hu & Hget).
    apply filter_In in Hu as [Hu Hf].
    split; [assumption|]. split; [assumption|]. split; [eauto|].
    unfold is_room_member in Hf.
    destruct (nth_error (PyStr.split ":" u) 1) as [home|]; [|discriminate].
    apply andb_true_iff in Hf as [Hhome Hadmin].
    apply String.eqb_eq in Hhome. subst home.
    split; [reflexivity|]. now apply negb_true_iff.
  - intros H. inversion H; subst ua1. exists []. rewrite app_nil_r.
    split; [reflexivity | intros u v []].
Qed.

Lemma membership_sync_only_appends_local_members_witness :
  exists added,
    res (_fetch_new_members_for_network Examples.srv Examples.segment_ex
           Examples.room_1 Examples.now_ex tt) = Ok (Examples.segment_ex ++ added).
Proof.
  destruct (membership_sync_only_appends_local_members Examples.srv Examples.segment_ex
              Examples.room_1 Examples.now_ex tt _ eq_refl) as (added & Heq & _).
  exists added. rewrite <- Heq. reflexivity.
Defined.

Lemma room_members_of_needs_colons server_name ms m :
  In m ms -> PyStr.has_char ":" m = false ->
  forall kept, room_members_of server_name ms <> Ok kept.
Proof.
  intros Hin Hc. induction ms as [|m' ms IH]; [destruct Hin|].
  cbn [room_members_of]. intros kept.
  destruct (nth_error (PyStr.split ":" m') 1) eqn:Hn; [|discriminate].
  destruct (room_members_of server_name ms) as [kept'|]; [|discriminate].
  destruct Hin as [->|Hin]; [|now destruct (IH Hin kept')].
  apply split_second_has_char in Hc. congruence.
Qed.

(** X7. Errors of the sync.  The sync makes exactly one request.  When the
    request fails with a [MatrixError] the sync returns the segment
    unchanged.  When the server answers, the sync raises exactly if one of
    the listed member ids has no colon, and then it is [IndexError]; it
    never raises anything else. *)
Theorem membership_sync_raises_only_on_a_member_without_colon
    {World} (api : GMatrixHttpApi World) ua room now w :
  let reply := fst (api_get_members api (room_id room) w) in
  let o := _fetch_new_members_for_network api ua room now w in
  evs o = [EvGetMembers (room_id room) reply] /\
  (reply = None -> res o = Ok ua) /\
  (forall ms, reply = Some ms ->
     (res o = Raise IndexError <->
      exists m, In m ms /\ PyStr.has_char ":" m = false)) /\
  (forall e, res o = Raise e -> e = IndexError).
Proof.
  intros reply o. unfold o. rewrite fetch_new_members_eq. cbn [res evs]. fold reply.
  split; [reflexivity|]. split; [intros ->; reflexivity|]. split.
  - intros ms ->.
    destruct (room_members_of (api_netloc api) ms) as [kept|e] eqn:E.
    + split; [discriminate|]. intros (m & Hin & Hc).
      exfalso. exact (room_members_of_needs_colons _ ms m Hin Hc kept E).
    + apply room_members_of_raise in E as (-> & Hex). tauto.
  - intros e. destruct reply as [ms|]; [|discriminate].
    destruct (room_members_of (api_netloc api) ms) as [kept|e'] eqn:E; [discriminate|].
    apply room_members_of_raise in E as (-> & _). congruence.
Qed.

(* ------------------------------------------------------------------ *)
(** ** Further properties of the discovery lookup *)

(** X8. The discovery lookup.  [get_discovery_room] never raises and makes
    exactly one request, for the alias ["#" + alias + ":" + server]; it
    returns [None] exactly when that request fails, and otherwise a room
    that carries the id the server gave and whose [local_room_alias] is the
    alias that was looked up. *)
Theorem discovery_lookup_never_raises
    {World} (api : GMatrixHttpApi World) (imp : Imports) n w :
  let a := lookup_alias api imp n in
  let reply := fst (api_get_room_id api a w) in
  let o := get_discovery_room api imp n w in
  evs o = [EvGetRoomId a reply] /\
  (exists r, res o = Ok r /\
             (r = None <-> reply = None) /\
             forall room, r = Some room ->
               reply = Some (room_id room) /\ local_room_alias room = a).
Proof.
  intros a reply o. unfold o. rewrite get_discovery_room_eq. cbn [res evs].
  fold a. fold reply. split; [reflexivity|].
  eexists. split; [reflexivity|].
  destruct reply as [i|]; cbn [option_map].
  - split; [split; discriminate|].
    intros room H. inversion H; subst room. split; reflexivity.
  - split; [tauto | discriminate].
Qed.

(* ------------------------------------------------------------------ *)
(** ** Further properties of the purge *)

(** X9. The purge of one network.  Given a segment with unique keys and a
    due list without duplicates whose accounts are all in the segment, the
    purge returns normally; it requests the deactivation of every due
    account once, in the order of the list, and makes no other request; an
    account is absent afterwards if its request succeeded and keeps its
    value if the request failed or if it was not due; no account is added. *)
Theorem purge_requests_each_due_account_once
    {World} (api : GMatrixHttpApi World) ua due w :
  Dict.wf ua -> NoDup due -> (forall u, In u due -> In u (Dict.keys ua)) ->
  let o := _purge_inactive_users_for_network api ua due w in
  exists ua',
    res o = Ok ua' /\
    deactivated_users (evs o) = due /\
    probed_users (evs o) = [] /\
    discovery_calls (evs o) = [] /\
    Dict.wf ua' /\
    (forall u, In (EvDeactivate u true) (evs o) -> Dict.get ua' u = None) /\
    (forall u, In (EvDeactivate u false) (evs o) -> Dict.get ua' u = Dict.get ua u) /\
    (forall u, ~ In u due -> Dict.get ua' u = Dict.get ua u) /\
    (forall u, In u (Dict.keys ua') -> In u (Dict.keys ua)).
Proof.
  intros Hwf Hnd Hsub o.
  destruct (purge_loop_spec api due ua w Hwf Hnd Hsub)
    as (ua' & Hres & Hd & Hwf' & Hok & Hfail & Hrest & Hkeys).
  destruct (purge_loop_events api due ua w) as (Hdisc & Hprobed & _).
  exists ua'. repeat (split; [assumption|]). assumption.
Qed.

Lemma purge_requests_each_due_account_once_witness :
  exists ua',
    res (_purge_inactive_users_for_network Examples.srv Examples.segment_ex
           ["@A:srv"; "@D:srv"]%string tt) = Ok ua' /\
    Dict.get ua' "@A:srv" = None /\ Dict.get ua' "@D:srv" = Some 20.
Proof.
  destruct (purge_requests_each_due_account_once Examples.srv Examples.segment_ex
              ["@A:srv"; "@D:srv"]%string tt)
    as (ua' & Hres & _ & _ & _ & _ & Hok & Hfail & _).
  - unfold Dict.wf; simpl; solve_NoDup.
  - solve_NoDup.
  - intros u [<-|[<-|[]]]; simpl; auto.
  - exists ua'. split; [exact Hres|]. split.
    + apply Hok. vm_compute. auto.
    + rewrite Hfail; [reflexivity|]. vm_compute. auto.
Defined.

(* ------------------------------------------------------------------ *)
(** ** Which accounts a pass adds and removes *)

Lemma in_keys_pop_or {V} (d : Dict.t V) k u :
  In u (Dict.keys d) -> u = k \/ In u (Dict.keys (Dict.pop d k)).
Proof.
  induction d as [|[k0 v0] d IH]; simpl; [tauto|].
  destruct (String.eqb_spec k0 k); simpl.
  - intros [H|H]; [left; congruence | auto].
  - intros [H|H]; [auto | destruct (IH H); auto].
Qed.

Section Accounts.

Context {World : Type}.
Variable api : GMatrixHttpApi World.
Variable imp : Imports.
Implicit Types (w : World) (ua : Dict.t Z).

Lemma probe_keys ua now w ua' due :
  res (_update_user_activity_for_network api ua now w) = Ok (ua', due) ->
  Dict.keys ua' = Dict.keys ua.
Proof.
  unfold _update_user_activity_for_network.
  set (dl := now - USER_PURGING_THRESHOLD).
  destruct (probe_loop_spec api now dl (possible_candidates ua dl) (ua, []) w)
    as (Hres & Hp & _).
  rewrite Hres. intros H. inversion H as [Hfold].
  change ua' with (fst (ua', due)). rewrite <- Hfold.
  rewrite probe_fold_keys; [reflexivity|].
  intros u Hu. rewrite <- probed_users_replies, Hp in Hu.
  now apply possible_candidates_keys in Hu.
Qed.

Lemma probe_network_keys ua now w ua' odue :
  res (probe_network api now ua w) = Ok (ua', odue) -> Dict.keys ua' = Dict.keys ua.
Proof.
  unfold probe_network. rewrite bind_res.
  destruct (res (_update_user_activity_for_network api ua now w))
    as [[ua1 due]|e] eqn:E; [|discriminate].
  cbn [ret res]. intros H. inversion H; subst. now apply probe_keys in E.
Qed.

Lemma fetch_keys ua room now w ua1 :
  res (_fetch_new_members_for_network api ua room now w) = Ok ua1 -> accounts_within ua ua1.
Proof.
  rewrite fetch_new_members_eq. cbn [res].
  destruct (fst (api_get_members api (room_id room) w)) as [ms|].
  - destruct (room_members_of (api_netloc api) ms) as [kept|]; [|discriminate].
    intros H u Hu. inversion H; subst ua1.
    destruct (add_new_members_appends now kept ua) as (added & -> & _).
    unfold Dict.keys. rewrite map_app. apply in_or_app. auto.
  - intros H u Hu. inversion H; subst. exact Hu.
Qed.

Lemma update_network_keys fetch now k ua w ua' odue :
  res (update_network api imp fetch now k ua w) = Ok (ua', odue) ->
  accounts_within ua ua' /\ (fetch = false -> Dict.keys ua' = Dict.keys ua).
Proof.
  destruct fetch.
  - rewrite update_network_fetch.
    destruct (py_int imp k) as [n|]; [|discriminate]. cbv zeta.
    destruct (fst (api_get_room_id api (lookup_alias api imp n) w)) as [i|].
    + match goal with |- context [_fetch_new_members_for_network api ua ?r now ?w1] =>
        pose proof (fetch_keys ua r now w1) as Hf;
        destruct (res (_fetch_new_members_for_network api ua r now w1)) as [ua1|e];
          [|discriminate]
      end.
      cbn [res]. intros H. apply probe_network_keys in H.
      split; [|discriminate]. intros u Hu. rewrite H. now apply (Hf ua1).
    + cbn [res]. intros H. inversion H; subst. split; [intros u Hu; exact Hu | auto].
  - rewrite update_network_no_fetch. intros H. apply probe_network_keys in H.
    split; [intros u Hu; now rewrite H | auto].
Qed.

(** The refresh-and-probe loop keeps every network and every account. *)
Lemma update_networks_keys fetch now items : forall due0 w items' due' k,
  res (update_networks api imp fetch now items due0 w) = Ok (items', due') ->
  match Dict.get items k with
  | None => Dict.get items' k = None
  | Some ua =>
      exists ua', Dict.get items' k = Some ua' /\ accounts_within ua ua' /\
                  (fetch = false -> Dict.keys ua' = Dict.keys ua)
  end.
Proof.
  induction items as [|[k0 ua0] items IH]; intros due0 w items' due' k Hres.
  - simpl in Hres. inversion Hres; subst. reflexivity.
  - rewrite update_networks_cons in Hres. cbv zeta in Hres.
    destruct (res (update_network api imp fetch now k0 ua0 w))
      as [[ua0' odue]|e] eqn:Hres1; [|discriminate].
    cbn [res] in Hres.
    match type of Hres with context [update_networks api imp fetch now items ?d ?w1] =>
      destruct (res (update_networks api imp fetch now items d w1))
        as [[items2 due2]|e] eqn:Hres2; [|discriminate];
      specialize (IH d w1 items2 due2 k Hres2)
    end.
    inversion Hres; subst items' due'. simpl.
    destruct (String.eqb k0 k); [|exact IH].
    exists ua0'. split; [reflexivity|].
    now apply update_network_keys in Hres1.
Qed.

(** The purge of one network adds no account, and an account it drops was
    deactivated with success. *)
Lemma purge_loop_keys due : forall ua w ua',
  res (_purge_inactive_users_for_network api ua due w) = Ok ua' ->
  accounts_within ua' ua /\
  forall u, In u (Dict.keys ua) ->
    In u (Dict.keys ua') \/
    In (EvDeactivate u true) (evs (_purge_inactive_users_for_network api ua due w)).
Proof.
  induction due as [|x due IH]; intros ua w ua' Hres.
  - simpl in Hres. inversion Hres; subst. split; [intros u Hu; exact Hu | auto].
  - cbn [_purge_inactive_users_for_network] in *.
    rewrite bind_res in Hres. rewrite bind_evs. rewrite purge_user_eq in *.
    destruct (Dict.get ua x) as [v|]; [|discriminate].
    cbn [res evs wld] in *.
    destruct (IH _ _ _ Hres) as [Hg Hd].
    destruct (fst (api_deactivate api x w)) eqn:Hok.
    + split.
      * intros u Hu. apply Hg in Hu. now apply DictFacts.in_keys_pop in Hu.
      * intros u Hu. destruct (in_keys_pop_or ua x u Hu) as [->|Hu'].
        -- right. left. reflexivity.
        -- destruct (Hd u Hu') as [H|H]; [auto | right; right; right; exact H].
    + split; [exact Hg|].
      intros u Hu. destruct (Hd u Hu) as [H|H]; [auto | right; right; right; exact H].
Qed.

Lemma purge_networks_keys due : forall ntu w ntu' k,
  res (purge_networks api ntu due w) = Ok ntu' ->
  match Dict.get ntu k with
  | None => Dict.get ntu' k = None
  | Some ua =>
      exists ua', Dict.get ntu' k = Some ua' /\ accounts_within ua' ua /\
        forall u, In u (Dict.keys ua) ->
          In u (Dict.keys ua') \/
          In (EvDeactivate u true) (evs (purge_networks api ntu due w))
  end.
Proof.
  induction due as [|[k0 d] due IH]; intros ntu w ntu' k Hres.
  - simpl in Hres. inversion Hres; subst.
    destruct (Dict.get ntu' k) as [ua|]; [|reflexivity].
    exists ua. split; [reflexivity|]. split; [intros u Hu; exact Hu | auto].
  - rewrite purge_networks_cons in *.
    destruct (Dict.get ntu k0) as [ua0|] eqn:Hk0; [|discriminate].
    cbv zeta in *.
    destruct (res (_purge_inactive_users_for_network api ua0 d w))
      as [ua0'|e] eqn:Hres1; [|discriminate].
    cbn [res evs] in *.
    destruct (purge_loop_keys d ua0 w ua0' Hres1) as [Hg1 Hd1].
    specialize (IH _ _ _ k Hres).
    destruct (string_dec k0 k) as [->|Hne].
    + rewrite Hk0. rewrite DictFacts.get_set_same in IH.
      destruct IH as (ua' & Hget & Hg2 & Hd2).
      exists ua'. split; [assumption|]. split.
      * intros u Hu. apply Hg1, Hg2, Hu.
      * intros u Hu. destruct (Hd1 u Hu) as [H|H]; [|right; apply in_or_app; auto].
        destruct (Hd2 u H) as [H'|H']; [auto | right; apply in_or_app; auto].
    + rewrite DictFacts.get_set_other in IH by assumption.
      destruct (Dict.get ntu k) as [ua|]; [|exact IH].
      destruct IH as (ua' & Hget & Hg2 & Hd2).
      exists ua'. split; [assumption|]. split; [assumption|].
      intros u Hu. destruct (Hd2 u Hu) as [H|H]; [auto | right; apply in_or_app; auto].
Qed.

End Accounts.

(** X10. No account is lost.  For any ledger and any server: if a pass
    returns, every network of the ledger is still there, and every account
    a network held before the pass is still in its segment, unless the
    pass requested its deactivation and the server accepted it. *)
Theorem pass_drops_only_deactivated_accounts
    {World} (api : GMatrixHttpApi World) (imp : Imports) g now w g' k ua u :
  res (run_user_purger api imp g now w) = Ok g' ->
  Dict.get (network_to_users g) k = Some ua ->
  In u (Dict.keys ua) ->
  exists ua',
    Dict.get (network_to_users g') k = Some ua' /\
    (In u (Dict.keys ua') \/
     In (EvDeactivate u true) (evs (run_user_purger api imp g now w))).
Proof.
  rewrite run_user_purger_eq. cbv zeta. intros Hres Hget Hu.
  destruct (res (update_networks api imp (fetch_new_members_due g now) now
                   (network_to_users g) [] w)) as [[items due]|e] eqn:Hres1;
    [|discriminate].
  cbn [res evs] in *.
  pose proof (update_networks_keys api imp _ now _ [] w items due k Hres1) as H1.
  rewrite Hget in H1. destruct H1 as (ua1 & Hget1 & Hg1 & _).
  match type of Hres with context [purge_networks api items due ?w1] =>
    destruct (res (purge_networks api items due w1)) as [ntu|e] eqn:Hres2;
      [|discriminate];
    pose proof (purge_networks_keys api due items w1 ntu k Hres2) as H2
  end.
  rewrite Hget1 in H2. destruct H2 as (ua' & Hget2 & _ & Hd).
  inversion Hres; subst g'. cbn [network_to_users].
  exists ua'. split; [assumption|].
  destruct (Hd u (Hg1 u Hu)) as [H|H]; [auto | right; apply in_or_app; auto].
Qed.

Lemma pass_drops_only_deactivated_accounts_witness :
  exists g' ua',
    res (run_user_purger Examples.srv Examples.raiden Examples.ledger_fresh
           Examples.now_ex tt) = Ok g' /\
    Dict.get (network_to_users g') "1" = Some ua' /\
    (In "@A:srv"%string (Dict.keys ua') \/
     In (EvDeactivate "@A:srv" true)
        (evs (run_user_purger Examples.srv Examples.raiden Examples.ledger_fresh
                Examples.now_ex tt))).
Proof.
  eexists.
  destruct (pass_drops_only_deactivated_accounts Examples.srv Examples.raiden
              Examples.ledger_fresh Examples.now_ex tt _ "1"%string
              [("@A:srv"%string, 0)] "@A:srv"%string eq_refl eq_refl)
    as (ua' & Hget & H); [simpl; auto|].
  exists ua'. split; [reflexivity|]. split; [exact Hget | exact H].
Defined.

(** X11. A pass without refresh adds nothing.  When no refresh is due, a
    pass that returns leaves [last_update] as it was, makes no discovery
    request, and returns the same networks, each holding only accounts it
    held before: no account is ever added outside a refresh. *)
Theorem pass_without_refresh_adds_no_account
    {World} (api : GMatrixHttpApi World) (imp : Imports) g now w g' :
  fetch_new_members_due g now = false ->
  res (run_user_purger api imp g now w) = Ok g' ->
  last_update g' = last_update g /\
  discovery_calls (evs (run_user_purger api imp g now w)) = [] /\
  forall k,
    match Dict.get (network_to_users g) k with
    | None => Dict.get (network_to_users g') k = None
    | Some ua =>
        exists ua', Dict.get (network_to_users g') k = Some ua' /\
                    accounts_within ua' ua
    end.
Proof.
  intros Hdue Hres.
  split; [|split; [now apply run_user_purger_no_refresh|]].
  - rewrite (run_user_purger_last_update api imp g now w g' Hres). now rewrite Hdue.
  - rewrite run_user_purger_eq in Hres. cbv zeta in Hres. rewrite Hdue in Hres.
    destruct (res (update_networks api imp false now (network_to_users g) [] w))
      as [[items due]|e] eqn:Hres1; [|discriminate].
    cbn [res] in Hres.
    match type of Hres with context [purge_networks api items due ?w1] =>
      destruct (res (purge_networks api items due w1)) as [ntu|e] eqn:Hres2;
        [|discriminate];
      pose proof (purge_networks_keys api due items w1 ntu) as H2
    end.
    inversion Hres; subst g'. cbn [network_to_users].
    intros k. specialize (H2 k Hres2).
    pose proof (update_networks_keys api imp false now _ [] w items due k Hres1) as H1.
    destruct (Dict.get (network_to_users g) k) as [ua|].
    + destruct H1 as (ua1 & Hget1 & _ & Hsame). rewrite Hget1 in H2.
      destruct H2 as (ua' & Hget2 & Hg & _).
      exists ua'. split; [assumption|].
      intros u Hu. apply Hg in Hu. now rewrite (Hsame eq_refl) in Hu.
    + rewrite H1 in H2. exact H2.
Qed.

Lemma pass_without_refresh_adds_no_account_witness :
  exists g',
    res (run_user_purger Examples.srv Examples.raiden Examples.ledger_fresh
           Examples.now_ex tt) = Ok g' /\
    last_update g' = Examples.now_ex.
Proof.
  eexists. split; [reflexivity|].
  apply (pass_without_refresh_adds_no_account Examples.srv Examples.raiden
           Examples.ledger_fresh Examples.now_ex tt _ eq_refl eq_refl).
Defined.

(* ------------------------------------------------------------------ *)
(** ** Further properties of loading the ledger *)

Section AddNetworks.

Variable imp : Imports.

Lemma fold_networks_appends ns : forall nets : Dict.t (Dict.t Z),
  exists added,
    fold_left (fun d n => if Dict.mem d (py_str imp n) then d
                          else Dict.set d (py_str imp n) []) ns nets = nets ++ added /\
    forall k ua, In (k, ua) added ->
      ua = [] /\ Dict.get nets k = None /\ exists n, In n ns /\ k = py_str imp n.
Proof.
  induction ns as [|n ns IH]; intros nets; cbn [fold_left].
  - exists []. rewrite app_nil_r. split; [reflexivity | intros k ua []].
  - match goal with |- context [if ?b then nets else _] => destruct b eqn:Hmem end.
    + destruct (IH nets) as (added & Heq & Hadded). exists added.
      split; [assumption|]. intros k ua Hin.
      destruct (Hadded k ua Hin) as (Hua & Hget & m & Hm & Hk).
      split; [assumption|]. split; [assumption|]. exists m. simpl. auto.
    + assert (E : Dict.get nets (py_str imp n) = None)
        by (apply DictFacts.get_None_keys, DictFacts.mem_false, Hmem).
      rewrite (set_absent nets _ _ E).
      destruct (IH (nets ++ [(py_str imp n, [])])) as (added & Heq & Hadded).
      exists ((py_str imp n, []) :: added).
      split; [etransitivity; [exact Heq|]; rewrite <- app_assoc; reflexivity|].
      intros k ua [Hin|Hin].
      * inversion Hin; subst. split; [reflexivity|]. split; [assumption|].
        exists n. simpl. auto.
      * destruct (Hadded k ua Hin) as (Hua & Hget & m & Hm & Hk).
        apply get_app_None in Hget.
        split; [assumption|]. split; [assumption|]. exists m. simpl. auto.
Qed.

Lemma fold_networks_all_known ns : forall nets : Dict.t (Dict.t Z),
  (forall n, In n ns -> Dict.mem nets (py_str imp n) = true) ->
  fold_left (fun d n => if Dict.mem d (py_str imp n) then d
                        else Dict.set d (py_str imp n) []) ns nets = nets.
Proof.
  induction ns as [|n ns IH]; intros nets H; cbn [fold_left]; [reflexivity|].
  match goal with |- context [if ?b then nets else _] =>
    replace b with true by (symmetry; apply H; simpl; auto) end.
  apply IH. intros m Hm. apply H. simpl; auto.
Qed.

End AddNetworks.

Lemma mem_app_l {V} (d1 d2 : Dict.t V) k :
  Dict.mem d1 k = true -> Dict.mem (d1 ++ d2) k = true.
Proof.
  unfold Dict.mem. induction d1 as [|[k' v'] d1 IH]; simpl; [discriminate|].
  destruct (String.eqb k' k); auto.
Qed.

Lemma fold_networks_mem (imp : Imports) ns : forall (nets : Dict.t (Dict.t Z)) n,
  In n ns ->
  Dict.mem (fold_left (fun d n => if Dict.mem d (py_str imp n) then d
                                  else Dict.set d (py_str imp n) []) ns nets)
           (py_str imp n) = true.
Proof.
  induction ns as [|m ns IH]; intros nets n Hin; [destruct Hin|].
  cbn [fold_left]. destruct Hin as [->|Hin]; [|now apply IH].
  match goal with |- Dict.mem (fold_left _ ns ?d) ?k = true =>
    destruct (fold_networks_appends imp ns d) as (added & Heq & _);
    assert (Hd : Dict.mem d k = true)
  end.
  { match goal with |- context [if ?b then nets else _] => destruct b eqn:Hmem end;
      [exact Hmem|].
    unfold Dict.mem. now rewrite DictFacts.get_set_same. }
  pose proof (mem_app_l _ added _ Hd) as Hc.
  exact (eq_ind_r (fun x => Dict.mem x (py_str imp n) = true) Hc Heq).
Qed.

(** X12. The loop over [Networks] in [purge].  On a ledger document the
    loop does not raise; it keeps [last_update] and every segment the
    ledger has, in order, and appends an empty segment for each network of
    [Networks] that has none, under the key [str(network.value)]; afterwards
    every network has a segment, and running the loop again changes
    nothing. *)
Theorem networks_loop_keeps_segments_and_adds_missing (imp : Imports) g :
  let nets' := with_networks imp (network_to_users g) in
  add_networks imp (PyJson.of_UserActivityInfo g) (Networks imp) =
    Ok (PyJson.of_UserActivityInfo (mkInfo (last_update g) nets')) /\
  (exists added,
     nets' = network_to_users g ++ added /\
     forall k ua, In (k, ua) added ->
       ua = [] /\ Dict.get (network_to_users g) k = None /\
       exists n, In n (Networks imp) /\ k = py_str imp n) /\
  (forall n, In n (Networks imp) -> Dict.mem nets' (py_str imp n) = true) /\
  add_networks imp (PyJson.of_UserActivityInfo (mkInfo (last_update g) nets'))
    (Networks imp) =
    Ok (PyJson.of_UserActivityInfo (mkInfo (last_update g) nets')).
Proof.
  intros nets'. destruct g as [t nets]. cbn [last_update network_to_users] in *.
  assert (Hmem : forall n, In n (Networks imp) -> Dict.mem nets' (py_str imp n) = true)
    by (intros n Hn; now apply fold_networks_mem).
  split; [apply add_networks_typed|]. split; [apply fold_networks_appends|].
  split; [exact Hmem|].
  rewrite add_networks_typed. do 3 f_equal.
  now apply fold_networks_all_known.
Qed.

(** X13. Documents of the wrong shape.  With at least one network in
    [Networks]: a ledger file holding JSON that is not an object makes
    [purge] raise [TypeError], an object without ["network_to_users"] makes
    it raise [KeyError], and an object whose ["network_to_users"] is null, a
    boolean or a number makes it raise [TypeError]; a file that cannot be
    read raises what [read_text] raised.  In each case no request has been
    sent to the server. *)
Theorem ledger_of_wrong_shape_raises_before_any_request
    {World} (api : GMatrixHttpApi World) (imp : Imports) now0 now w :
  Networks imp <> [] ->
  (forall j, (forall d, j <> JDict d) ->
     purge api imp now0 now (Document j) w = Some (mkOut (Raise TypeError) [] w)) /\
  (forall d, Dict.get d "network_to_users" = None ->
     purge api imp now0 now (Document (JDict d)) w = Some (mkOut (Raise KeyError) [] w)) /\
  (forall d x, Dict.get d "network_to_users" = Some x ->
     (forall s, x <> JStr s) -> (forall l, x <> JList l) -> (forall m, x <> JDict m) ->
     purge api imp now0 now (Document (JDict d)) w = Some (mkOut (Raise TypeError) [] w)) /\
  (forall e, purge api imp now0 now (Unreadable e) w = Some (mkOut (Raise e) [] w)).
Proof.
  intros Hnets. destruct (Networks imp) as [|n ns] eqn:E; [congruence|].
  unfold purge. rewrite E. cbn [load_user_activity add_networks].
  split; [|split; [|split]].
  - intros j Hj. destruct j; try reflexivity. now destruct (Hj members).
  - intros d Hd. unfold add_network. cbn [PyJson.getitem]. now rewrite Hd.
  - intros d x Hd Hs Hl Hm. unfold add_network. cbn [PyJson.getitem]. rewrite Hd.
    destruct x; try reflexivity;
      [now destruct (Hs s) | now destruct (Hl items) | now destruct (Hm members)].
  - reflexivity.
Qed.

Lemma ledger_of_wrong_shape_raises_before_any_request_witness :
  purge Examples.srv Examples.raiden Examples.now_ex Examples.now_ex
    (Document (JStr "ledger")) tt = Some (mkOut (Raise TypeError) [] tt).
Proof.
  apply (ledger_of_wrong_shape_raises_before_any_request Examples.srv Examples.raiden
           Examples.now_ex Examples.now_ex tt); discriminate.
Defined.

(* ------------------------------------------------------------------ *)
(** ** The test server of [tests/utils.py] *)

(** Every reply in the events of a probe is what the server answered. *)
Lemma probe_loop_replies_from_api {World} (api : GMatrixHttpApi World) now dl cands :
  forall st w u r,
    In (EvGetPresence u r) (evs (probe_loop api now dl cands st w)) ->
    exists w', r = fst (api_get_presence api u w').
Proof.
  induction cands as [|c cands IH]; intros st w u r Hin; [destruct Hin|].
  cbn [probe_loop] in Hin. rewrite bind_evs, probe_user_eq in Hin.
  cbn [res evs wld] in Hin.
  destruct Hin as [Hin|[Hin|Hin]]; [|discriminate|eauto].
  inversion Hin; subst. eauto.
Qed.

(** What [GMatrixHttpApiTest.get_presence] answers, whatever came before. *)
Lemma test_server_presence server_name user_presence activity_change u w :
  fst (api_get_presence
         (Examples.GMatrixHttpApiTest server_name user_presence activity_change) u w) =
  match Dict.get activity_change u with
  | Some ago => Some (mkPresence "online" (Some (ago * 1000)))
  | None =>
      match Dict.get user_presence u with
      | Some ago => Some (mkPresence "offline" (Some (ago * 1000)))
      | None => None
      end
  end.
Proof.
  cbn. destruct (Dict.get activity_change u); [reflexivity|].
  destruct (Dict.get user_presence u); reflexivity.
Qed.

(** X14. The probe against the test server.  With [GMatrixHttpApiTest],
    the due list of a probe consists exactly of the candidates that are
    listed in [user_presence] with more than [USER_PURGING_THRESHOLD]
    seconds and are not listed in [activity_change]: an account in
    [activity_change] is reported online and is never due, and an account in
    neither table makes the query fail and is never due. *)
Theorem test_server_due_list
    server_name (user_presence activity_change : Dict.t Z) ua now w :
  Dict.wf ua ->
  let api := Examples.GMatrixHttpApiTest server_name user_presence activity_change in
  let o := _update_user_activity_for_network api ua now w in
  exists ua' due,
    res o = Ok (ua', due) /\
    forall u,
      In u due <->
      candidate ua now u /\
      Dict.get activity_change u = None /\
      exists ago, Dict.get user_presence u = Some ago /\ USER_PURGING_THRESHOLD < ago.
Proof.
  intros Hwf api o.
  destruct (update_for_network_spec api ua now w Hwf)
    as (ua' & due & Hres & Hp & _ & _ & _ & _ & _ & _ & _ & _ & Hdue).
  fold o in Hres, Hp, Hdue.
  exists ua', due. split; [assumption|].
  assert (Hreply : forall u r, In (EvGetPresence u r) (evs o) ->
            r = match Dict.get activity_change u with
                | Some ago => Some (mkPresence "online" (Some (ago * 1000)))
                | None =>
                    match Dict.get user_presence u with
                    | Some ago => Some (mkPresence "offline" (Some (ago * 1000)))
                    | None => None
                    end
                end).
  { intros u r Hin. apply probe_loop_replies_from_api in Hin as [w' ->].
    apply test_server_presence. }
  intros u. rewrite Hdue. split.
  - intros (p & Hin & Hlt & Hoff).
    assert (Hc : candidate ua now u).
    { apply possible_candidates_get; [assumption|]. rewrite <- Hp.
      apply in_probed_users. eauto. }
    apply Hreply in Hin.
    destruct (Dict.get activity_change u) as [ago|].
    + inversion Hin; subst p. discriminate Hoff.
    + destruct (Dict.get user_presence u) as [ago|]; [|discriminate].
      inversion Hin; subst p. split; [assumption|]. split; [reflexivity|].
      exists ago. split; [reflexivity|].
      unfold last_active_ago_of in Hlt. cbn [last_active_ago] in Hlt.
      rewrite Z.div_mul in Hlt by lia. lia.
  - intros (Hc & Hac & ago & Hup & Hago).
    assert (Hin : In u (probed_users (evs o))).
    { rewrite Hp. now apply possible_candidates_get. }
    apply in_probed_users in Hin as [r Hin].
    pose proof (Hreply u r Hin) as Hr. rewrite Hac, Hup in Hr. subst r.
    eexists. split; [exact Hin|].
    unfold last_active_ago_of. cbn [last_active_ago presence].
    rewrite Z.div_mul by lia. split; [lia | reflexivity].
Qed.

Lemma test_server_due_list_witness :
  exists ua' due,
    res (_update_user_activity_for_network Examples.test_srv Examples.segment_ex
           Examples.now_ex []) = Ok (ua', due) /\
    In "@A:srv"%string due /\ ~ In "@B:srv"%string due.
Proof.
  destruct (test_server_due_list "srv" [("@A:srv", 200000); ("@B:srv", 200000)]%string
              [("@B:srv"%string, 5)] Examples.segment_ex Examples.now_ex [])
    as (ua' & due & Hres & Hdue).
  - unfold Dict.wf; simpl; solve_NoDup.
  - exists ua', due. split; [exact Hres|]. split.
    + apply Hdue. split; [|split; [reflexivity|]].
      * exists 0. split; [reflexivity | unfold USER_PURGING_THRESHOLD; simpl; lia].
      * exists 200000. split; [reflexivity | unfold USER_PURGING_THRESHOLD; lia].
    + intros H. apply Hdue in H as (_ & Hac & _). discriminate Hac.
Defined.

(* ------------------------------------------------------------------ *)
(** ** Restarting the containers *)

Lemma whitelist_unchanged_empty_remote local : whitelist_unchanged [] local = false.
Proof.
  destruct local as [[|s l]|]; reflexivity.
Qed.

Lemma whitelist_unchanged_same l : l <> [] -> whitelist_unchanged l (Some l) = true.
Proof.
  destruct l as [|s l]; [congruence|]. intros _. unfold whitelist_unchanged.
  destruct (list_eq_dec string_dec (s :: l) (s :: l)); [reflexivity | congruence].
Qed.

Lemma whitelist_unchanged_true remote local :
  whitelist_unchanged remote local = true -> local = Some remote /\ remote <> [].
Proof.
  destruct local as [[|s l]|]; unfold whitelist_unchanged; try discriminate.
  destruct (list_eq_dec string_dec remote (s :: l)); [|discriminate].
  subst. split; [reflexivity | discriminate].
Qed.

Lemma restart_candidate_false label c :
  restart_candidate label c = false <->
  negb (String.eqb (container_status c) "running") || negb (label_set c label) = true.
Proof.
  unfold restart_candidate.
  destruct (String.eqb (container_status c) "running"), (label_set c label);
    simpl; split; congruence.
Qed.

(** X15. Which containers are restarted.  Whatever the whitelists and
    whatever raises: a container that is restarted is running, carries the
    restart label with a non-empty value, and either its whitelist could
    not be read ([KeyError] or [IndexError]) or its whitelist is empty,
    null, or differs from the remote one. *)
Theorem restarted_containers_are_running_labelled_and_changed
    label remote containers name :
  In name (fst (restart_loop label remote containers)) ->
  exists c,
    In c containers /\ container_name c = name /\
    container_status c = "running" /\
    (exists v, Dict.get (container_labels c) label = Some v /\ v <> "") /\
    container_restart c = None /\
    (container_whitelist c = Raise KeyError \/
     container_whitelist c = Raise IndexError \/
     exists local, container_whitelist c = Ok local /\
                   (local = None \/ local = Some [] \/ local <> Some remote)).
Proof.
  induction containers as [|c cs IH]; [intros []|].
  cbn [restart_loop]. cbv zeta.
  assert (Hrest : In name (fst (restart_loop label remote cs)) ->
                  exists c0, In c0 (c :: cs) /\ container_name c0 = name /\
                    container_status c0 = "running" /\
                    (exists v, Dict.get (container_labels c0) label = Some v /\ v <> "") /\
                    container_restart c0 = None /\
                    (container_whitelist c0 = Raise KeyError \/
                     container_whitelist c0 = Raise IndexError \/
                     exists local, container_whitelist c0 = Ok local /\
                       (local = None \/ local = Some [] \/ local <> Some remote))).
  { intros H. destruct (IH H) as (c0 & Hin & Hc0). exists c0. simpl. auto. }
  destruct (String.eqb_spec (container_status c) "running") as [Hrun|Hrun];
    cbn [negb orb]; [|exact Hrest].
  destruct (label_set c label) eqn:Hlabel; cbn [negb]; [|exact Hrest].
  assert (Hlab : exists v, Dict.get (container_labels c) label = Some v /\ v <> "").
  { unfold label_set in Hlabel.
    destruct (Dict.get (container_labels c) label) as [[|a v]|]; try discriminate.
    eexists. split; [reflexivity | discriminate]. }
  assert (Hthis : forall (Hwl : container_whitelist c = Raise KeyError \/
                     container_whitelist c = Raise IndexError \/
                     exists local, container_whitelist c = Ok local /\
                       (local = None \/ local = Some [] \/ local <> Some remote)),
            In name (fst (match container_restart c with
                          | Some e => ([], Some e)
                          | None =>
                              let '(restarted, e) := restart_loop label remote cs in
                              (container_name c :: restarted, e)
                          end)) ->
            exists c0, In c0 (c :: cs) /\ container_name c0 = name /\
              container_status c0 = "running" /\
              (exists v, Dict.get (container_labels c0) label = Some v /\ v <> "") /\
              container_restart c0 = None /\
              (container_whitelist c0 = Raise KeyError \/
               container_whitelist c0 = Raise IndexError \/
               exists local, container_whitelist c0 = Ok local /\
                 (local = None \/ local = Some [] \/ local <> Some remote))).
  { intros Hwl. destruct (container_restart c) eqn:Hr; [intros []|].
    destruct (restart_loop label remote cs) as [restarted e] eqn:Hloop.
    cbn [fst]. intros [Hname|Hin]; [|apply Hrest; exact Hin].
    exists c. simpl. auto 10. }
  destruct (container_whitelist c) as [local|e] eqn:Hwl.
  - destruct (whitelist_unchanged remote local) eqn:Hu; [exact Hrest|].
    apply Hthis. right. right. exists local. split; [reflexivity|].
    destruct local as [[|s l]|]; auto.
    right. right. intros Heq. inversion Heq; subst remote.
    rewrite whitelist_unchanged_same in Hu by discriminate. discriminate.
  - destruct e; try (intros []); apply Hthis; auto.
Qed.

Lemma restarted_containers_are_running_labelled_and_changed_witness :
  exists c,
    In c RestartExamples.containers /\ container_name c = "bare"%string /\
    container_status c = "running"%string.
Proof.
  destruct (restarted_containers_are_running_labelled_and_changed
              "purge_restart" ["a.example"; "b.example"]%string
              RestartExamples.containers "bare")
    as (c & Hin & Hname & Hrun & _); [vm_compute; auto|].
  exists c. auto.
Defined.

(** X16. An unreachable whitelist restarts every container that takes
    part.  When the restart label is set and the remote whitelist cannot be
    fetched (or is empty), every running container that carries the label is
    restarted, in order, whatever its own whitelist says -- provided no
    restart raises and reading a whitelist raises at most [KeyError] or
    [IndexError].  An empty url makes the request go to the default url. *)
Theorem unreachable_whitelist_restarts_every_candidate
    default_url fetch label url containers :
  label <> ""%string ->
  let asked := match url with EmptyString => default_url | _ => url end in
  fetch asked = FetchCaught \/ fetch asked = Fetched [] ->
  Forall (fun c => restart_candidate label c = true ->
                   container_restart c = None /\
                   forall e, container_whitelist c = Raise e ->
                             e = KeyError \/ e = IndexError) containers ->
  restart_containers default_url fetch (Some label) url (Ok containers) =
  (map container_name (filter (restart_candidate label) containers), None).
Proof.
  intros Hlabel asked Hfetch Hall.
  assert (Hloop : restart_loop label [] containers =
                  (map container_name (filter (restart_candidate label) containers), None)).
  { induction containers as [|c cs IH]; [reflexivity|].
    inversion Hall as [|? ? Hc Hcs]; subst. specialize (IH Hcs).
    cbn [restart_loop filter]. cbv zeta.
    destruct (restart_candidate label c) eqn:Hcand.
    - destruct (Hc eq_refl) as [Hr Hwl].
      unfold restart_candidate in Hcand. apply andb_true_iff in Hcand as [H1 H2].
      rewrite H1, H2, Hr, IH. cbn [negb orb map].
      destruct (container_whitelist c) as [local|e].
      + now rewrite whitelist_unchanged_empty_remote.
      + destruct (Hwl e eq_refl) as [-> | ->]; reflexivity.
    - apply restart_candidate_false in Hcand. rewrite Hcand. exact IH. }
  unfold restart_containers. destruct label as [|a label]; [congruence|].
  fold asked. destruct Hfetch as [-> | ->]; exact Hloop.
Qed.

Lemma unreachable_whitelist_restarts_every_candidate_witness :
  restart_containers "https://default" RestartExamples.unreachable
    (Some "purge_restart"%string) "" (Ok RestartExamples.containers) =
  (["synapse"; "bare"]%string, None).
Proof.
  apply (unreachable_whitelist_restarts_every_candidate "https://default"
           RestartExamples.unreachable "purge_restart" "" RestartExamples.containers).
  - discriminate.
  - left. reflexivity.
  - apply Forall_forall. intros c Hin. simpl in Hin.
    destruct Hin as [<-|[<-|[<-|[<-|[]]]]]; intros _; (split; [reflexivity|]);
      intros e H; inversion H; auto.
Defined.

(** X17. An unchanged whitelist restarts nothing.  When the remote
    whitelist is fetched, is not empty, and every running container that
    carries the label has exactly that list, in that order, as its own
    whitelist, no container is restarted and nothing is raised.  Without a
    restart label nothing is restarted either. *)
Theorem unchanged_whitelist_restarts_nothing
    default_url fetch label url containers remote :
  label <> ""%string ->
  fetch (match url with EmptyString => default_url | _ => url end) = Fetched remote ->
  remote <> [] ->
  Forall (fun c => restart_candidate label c = true ->
                   container_whitelist c = Ok (Some remote)) containers ->
  restart_containers default_url fetch (Some label) url (Ok containers) = ([], None) /\
  restart_containers default_url fetch None url (Ok containers) = ([], None) /\
  restart_containers default_url fetch (Some ""%string) url (Ok containers) = ([], None).
Proof.
  intros Hlabel Hfetch Hremote Hall.
  split; [|split; reflexivity].
  unfold restart_containers. destruct label as [|a label]; [congruence|].
  rewrite Hfetch.
  induction containers as [|c cs IH]; [reflexivity|].
  inversion Hall as [|? ? Hc Hcs]; subst. specialize (IH Hcs).
  cbn [restart_loop]. cbv zeta.
  destruct (restart_candidate (String a label) c) eqn:Hcand.
  - rewrite (Hc eq_refl), (whitelist_unchanged_same remote Hremote).
    unfold restart_candidate in Hcand. apply andb_true_iff in Hcand as [H1 H2].
    rewrite H1, H2. exact IH.
  - apply restart_candidate_false in Hcand. rewrite Hcand. exact IH.
Qed.

Lemma unchanged_whitelist_restarts_nothing_witness :
  restart_containers "https://default" RestartExamples.same_list
    (Some "purge_restart"%string) "https://servers"
    (Ok [RestartExamples.synapse; RestartExamples.database; RestartExamples.stopped])
  = ([], None).
Proof.
  apply (unchanged_whitelist_restarts_nothing "https://default"
           RestartExamples.same_list "purge_restart" "https://servers"
           [RestartExamples.synapse; RestartExamples.database; RestartExamples.stopped]
           ["a.example"; "b.example"]%string).
  - discriminate.
  - reflexivity.
  - discriminate.
  - apply Forall_forall. intros c Hin. simpl in Hin.
    destruct Hin as [<-|[<-|[<-|[]]]]; intros H;
      [reflexivity | discriminate H | discriminate H].
Defined.

(* ------------------------------------------------------------------ *)
(** ** Membership sync: which members are local *)

Lemma split_without_separator sep s :
  PyStr.has_char sep s = false -> PyStr.split sep s = [s].
Proof.
  induction s as [|c s IH]; simpl; [reflexivity|].
  destruct (Ascii.eqb c sep); simpl; [discriminate|].
  intros H. now rewrite IH.
Qed.

(** When the domain of an id has no colon, it is the second piece of the
    id split at its colons. *)
Lemma split_second_is_domain m domain :
  after_first_colon m = Some domain ->
  PyStr.has_char ":" domain = false ->
  nth_error (PyStr.split ":" m) 1 = Some domain.
Proof.
  induction m as [|c m IH]; simpl; [discriminate|].
  destruct (Ascii.eqb c ":").
  - intros H Hc. inversion H; subst. now rewrite split_without_separator.
  - intros H Hc. specialize (IH H Hc).
    pose proof (split_not_nil ":" m).
    destruct (PyStr.split ":" m) as [|p ps]; [contradiction | exact IH].
Qed.

Lemma homed_member_passes_filter server_name m :
  PyStr.has_char ":" server_name = false ->
  homed_on server_name m = true ->
  PyStr.startswith m "@admin" = false ->
  is_room_member server_name m = true.
Proof.
  unfold homed_on, is_room_member. intros Hc Hhome Hadmin.
  destruct (after_first_colon m) as [domain|] eqn:E; [|discriminate].
  apply String.eqb_eq in Hhome. subst domain.
  rewrite (split_second_is_domain m server_name E Hc), String.eqb_refl, Hadmin.
  reflexivity.
Qed.

(** C8, as the code has it.  On a server whose name has no colon (no
    port), every member of the discovery room that is homed on the server
    (the domain of its id, what follows the first colon, is the server's
    name), whose id does not start with "@admin", and that is not yet in the
    segment is inserted by a sync that returns, with last-seen time
    [now - USER_PURGING_THRESHOLD - 1].  That makes it a candidate at once,
    so the probe asks for its presence; and no pass requests a deactivation
    for an account unless the server has reported that account offline
    earlier in the same pass. *)
Theorem membership_sync_inserts_local_members
    {World} (api : GMatrixHttpApi World) (imp : Imports) ua room now w ms ua1 m :
  PyStr.has_char ":" (api_netloc api) = false ->
  fst (api_get_members api (room_id room) w) = Some ms ->
  res (_fetch_new_members_for_network api ua room now w) = Ok ua1 ->
  In m ms ->
  homed_on (api_netloc api) m = true ->
  PyStr.startswith m "@admin" = false ->
  Dict.get ua m = None ->
  Dict.get ua1 m = Some (now - USER_PURGING_THRESHOLD - 1) /\
  candidate ua1 now m /\
  In m (possible_candidates ua1 (now - USER_PURGING_THRESHOLD)) /\
  (forall g w',
     let o := run_user_purger api imp g now w' in
     In m (deactivated_users (evs o)) ->
     exists p, In (EvGetPresence m (Some p)) (evs o) /\ presence p = "offline").
Proof.
  intros Hport Hms Hres Hin Hhome Hadmin Hnew.
  apply (membership_sync_inserts_filtered api imp ua room now w ms ua1 m);
    try assumption.
  now apply homed_member_passes_filter.
Qed.

Lemma membership_sync_inserts_local_members_witness :
  exists ua1,
    res (_fetch_new_members_for_network Examples.srv [] Examples.room_1
           Examples.now_ex tt) = Ok ua1 /\
    Dict.get ua1 "@B:srv" = Some (Examples.now_ex - USER_PURGING_THRESHOLD - 1).
Proof.
  eexists. split; [reflexivity|].
  eapply (membership_sync_inserts_local_members Examples.srv Examples.raiden []
            Examples.room_1 Examples.now_ex tt
            ["@A:srv"; "@B:srv"; "@admin:srv"; "@C:other"]%string _ "@B:srv"%string);
    try reflexivity.
  simpl. auto.
Defined.

(** C8, as stated, fails.  On a server named [srv:8448] the room lists
    [@alice:srv:8448]: the member is homed on the server, is not an admin
    account and is not in the segment, yet the sync returns the segment
    empty, because [member.split(":")[1]] is [srv], not [srv:8448].  And on
    the server [srv], the member [@administrator:srv], which is not the
    account [@admin:srv], is left out as well, because its id starts with
    "@admin". *)
Lemma membership_sync_misses_local_members :
  (homed_on "srv:8448" "@alice:srv:8448" = true /\
   PyStr.startswith "@alice:srv:8448" "@admin" = false /\
   fst (api_get_members Examples.srv_port "!r1:srv:8448" tt) =
     Some ["@alice:srv:8448"%string] /\
   res (_fetch_new_members_for_network Examples.srv_port [] Examples.room_port
          Examples.now_ex tt) = Ok []) /\
  (homed_on "srv" "@administrator:srv" = true /\
   "@administrator:srv"%string <> "@admin:srv"%string /\
   fst (api_get_members Examples.srv_administrator "!r1:srv" tt) =
     Some ["@administrator:srv"%string] /\
   res (_fetch_new_members_for_network Examples.srv_administrator [] Examples.room_1
          Examples.now_ex tt) = Ok []).
Proof.
  repeat split; try reflexivity. discriminate.
Qed.

(* ------------------------------------------------------------------ *)
(** ** The purge inside a pass *)

Section NoKeyError.

Context {World : Type}.
Variable api : GMatrixHttpApi World.
Variable imp : Imports.
Implicit Types (w : World) (ua : Dict.t Z).

Lemma fetch_new_members_wf ua room now w ua1 :
  Dict.wf ua ->
  res (_fetch_new_members_for_network api ua room now w) = Ok ua1 -> Dict.wf ua1.
Proof.
  intros Hwf. rewrite fetch_new_members_eq. cbn [res].
  destruct (fst (api_get_members api (room_id room) w)) as [ms|].
  - destruct (room_members_of (api_netloc api) ms) as [kept|]; [|discriminate].
    intros H. inversion H; subst. now apply add_new_members_wf.
  - intros H. inversion H; subst. assumption.
Qed.

Lemma fetch_new_members_raises ua room now w e :
  res (_fetch_new_members_for_network api ua room now w) = Raise e -> e = IndexError.
Proof.
  rewrite fetch_new_members_eq. cbn [res].
  destruct (fst (api_get_members api (room_id room) w)) as [ms|]; [|discriminate].
  destruct (room_members_of (api_netloc api) ms) as [kept|e'] eqn:E; [discriminate|].
  apply room_members_of_raise in E as (-> & _). congruence.
Qed.

Lemma probe_network_returns now ua w :
  exists r, res (probe_network api now ua w) = Ok r.
Proof.
  unfold probe_network. rewrite bind_res. unfold _update_user_activity_for_network.
  destruct (probe_loop_spec api now (now - USER_PURGING_THRESHOLD)
              (possible_candidates ua (now - USER_PURGING_THRESHOLD)) (ua, []) w)
    as (Hres & _).
  rewrite Hres. destruct (fold_left _ _ _) as [ua' due]. cbn. eauto.
Qed.

(** One network's turn raises nothing but [ValueError] (the key) and
    [IndexError] (a member id). *)
Lemma update_network_raises fetch now k ua w e :
  res (update_network api imp fetch now k ua w) = Raise e ->
  e = ValueError \/ e = IndexError.
Proof.
  destruct fetch.
  - rewrite update_network_fetch.
    destruct (py_int imp k) as [n|]; [|cbn; intros H; inversion H; auto].
    cbv zeta.
    destruct (fst (api_get_room_id api (lookup_alias api imp n) w)) as [i|];
      [|discriminate].
    match goal with |- context [_fetch_new_members_for_network api ua ?r now ?w1] =>
      pose proof (fetch_new_members_raises ua r now w1) as Hf;
      destruct (res (_fetch_new_members_for_network api ua r now w1)) as [ua1|e1]
    end; cbn [res].
    + match goal with |- context [probe_network api now ua1 ?w2] =>
        destruct (probe_network_returns now ua1 w2) as [r ->] end.
      discriminate.
    + intros H. inversion H; subst. right. now apply Hf.
  - rewrite update_network_no_fetch.
    destruct (probe_network_returns now ua w) as [r ->]. discriminate.
Qed.

(** When one network's turn returns, the segment still holds every account
    once, and a due list, if there is one, has no duplicates and names
    accounts of the segment. *)
Lemma update_network_inv fetch now k ua w ua' odue :
  Dict.wf ua ->
  res (update_network api imp fetch now k ua w) = Ok (ua', odue) ->
  Dict.wf ua' /\
  (forall due, odue = Some due ->
               NoDup due /\ forall u, In u due -> In u (Dict.keys ua')).
Proof.
  intros Hwf. destruct fetch.
  - rewrite update_network_fetch.
    destruct (py_int imp k) as [n|]; [|discriminate]. cbv zeta.
    destruct (fst (api_get_room_id api (lookup_alias api imp n) w)) as [i|].
    + match goal with |- context [_fetch_new_members_for_network api ua ?r now ?w1] =>
        pose proof (fetch_new_members_wf ua r now w1) as Hf;
        destruct (res (_fetch_new_members_for_network api ua r now w1)) as [ua1|e1];
          [|discriminate]
      end.
      cbn [res].
      match goal with |- context [probe_network api now ua1 ?w2] =>
        destruct (probe_network_spec api now ua1 w2 (Hf ua1 Hwf eq_refl))
          as (ua2 & due & Hres & _ & Hwf2 & _ & Hnd & Hsub)
      end.
      rewrite Hres. intros H. inversion H; subst.
      split; [assumption|]. intros d Hd. inversion Hd; subst. auto.
    + cbn [res]. intros H. inversion H; subst. split; [assumption | discriminate].
  - rewrite update_network_no_fetch.
    destruct (probe_network_spec api now ua w Hwf)
      as (ua2 & due & Hres & _ & Hwf2 & _ & Hnd & Hsub).
    rewrite Hres. intros H. inversion H; subst.
    split; [assumption|]. intros d Hd. inversion Hd; subst. auto.
Qed.

Lemma update_networks_raises fetch now items : forall due0 w e,
  res (update_networks api imp fetch now items due0 w) = Raise e ->
  e = ValueError \/ e = IndexError.
Proof.
  induction items as [|[k ua] items IH]; intros due0 w e; [discriminate|].
  rewrite update_networks_cons. cbv zeta.
  pose proof (update_network_raises fetch now k ua w) as H1.
  destruct (res (update_network api imp fetch now k ua w)) as [[ua' odue]|e1];
    cbn [res]; [|intros H; inversion H; subst; now apply H1].
  match goal with |- context [update_networks api imp fetch now items ?d ?w1] =>
    specialize (IH d w1);
    destruct (res (update_networks api imp fetch now items d w1)) as [[items2 due2]|e2]
  end; [discriminate|].
  intros H. inversion H; subst. now apply IH.
Qed.

Lemma update_networks_inv fetch now items : forall due0 w items' due',
  Forall (fun kv => Dict.wf (snd kv)) items ->
  res (update_networks api imp fetch now items due0 w) = Ok (items', due') ->
  Dict.keys items' = Dict.keys items /\
  Forall (fun kv => Dict.wf (snd kv)) items' /\
  (Dict.wf due0 -> Dict.wf due') /\
  (forall k d, In (k, d) due' ->
     In (k, d) due0 \/
     (NoDup d /\ exists ua', In (k, ua') items' /\
                             forall u, In u d -> In u (Dict.keys ua'))).
Proof.
  induction items as [|[k ua] items IH]; intros due0 w items' due' Hwf Hres.
  - simpl in Hres. inversion Hres; subst. repeat split; auto.
  - rewrite update_networks_cons in Hres. cbv zeta in Hres.
    inversion Hwf as [|? ? Hua Hrest]; subst. simpl in Hua.
    destruct (res (update_network api imp fetch now k ua w))
      as [[ua' odue]|e] eqn:Hres1; [|discriminate].
    destruct (update_network_inv fetch now k ua w ua' odue Hua Hres1) as [Hwf' Hdue1].
    cbn [res] in Hres.
    match type of Hres with context [update_networks api imp fetch now items ?d ?w1] =>
      destruct (res (update_networks api imp fetch now items d w1))
        as [[items2 due2]|e] eqn:Hres2; [|discriminate];
      destruct (IH d w1 items2 due2 Hrest Hres2) as (Hkeys & Hwfs & Hdwf & Hdue2)
    end.
    inversion Hres; subst items' due'.
    split; [simpl; now rewrite Hkeys|]. split; [constructor; assumption|]. split.
    + intros Hd0. apply Hdwf.
      destruct odue; [now apply DictFacts.wf_set | assumption].
    + intros k' d' Hin. apply Hdue2 in Hin as [Hin|(Hnd & ua'' & Hin & Hsub)].
      * destruct odue as [d|]; [|auto].
        apply in_set_inv in Hin as [[-> ->]|Hin]; [|auto].
        destruct (Hdue1 d eq_refl) as [Hnd Hsub].
        right. split; [assumption|]. exists ua'. simpl. auto.
      * right. split; [assumption|]. exists ua''. simpl. auto.
Qed.

(** On a ledger in which every network and every account appears once, a
    pass never raises [KeyError]: the due lists handed to the purge are
    built from the keys of the segments they are purged from. *)
Lemma pass_never_raises_KeyError g now w :
  ledger_wf g -> res (run_user_purger api imp g now w) <> Raise KeyError.
Proof.
  intros [Hwf Hwfs]. rewrite run_user_purger_eq. cbv zeta.
  destruct (res (update_networks api imp (fetch_new_members_due g now) now
                   (network_to_users g) [] w)) as [[items due]|e] eqn:Hres1.
  - destruct (update_networks_inv _ now _ [] w items due Hwfs Hres1)
      as (Hkeys & Hwfs1 & Hdwf & Hdue).
    match goal with |- context [purge_networks api items due ?w1] =>
      destruct (purge_networks_ok api due items w1) as (ntu & Hres2 & _)
    end.
    + unfold Dict.wf. now rewrite Hkeys.
    + assumption.
    + apply Hdwf. constructor.
    + intros k d Hin. destruct (Hdue k d Hin) as [[]|H]. exact H.
    + cbn [res]. rewrite Hres2. discriminate.
  - cbn [res]. apply update_networks_raises in Hres1 as [-> | ->]; discriminate.
Qed.

End NoKeyError.

(** C4, as the code has it.  The purge step is given, as the probe
    produces it, a due list without duplicates whose accounts are all in the
    segment (every account appearing once).  Then it returns normally and
    requests the deactivation of every due account exactly once, in order:
    an account whose request succeeded is absent from the segment
    afterwards, an account whose request failed keeps its record and is not
    tried again in the same pass.  A second pass over the resulting segment
    -- a probe at any time, then the purge of the due list it returns --
    returns normally, neither asks about nor requests the deactivation of
    an account the first purge removed, and leaves it absent.  And inside a
    pass over a well-formed ledger the purge never raises [KeyError]. *)
Theorem purge_removes_on_success_and_stays_final
    {World} (api : GMatrixHttpApi World) ua due w :
  Dict.wf ua -> NoDup due -> (forall u, In u due -> In u (Dict.keys ua)) ->
  let o1 := _purge_inactive_users_for_network api ua due w in
  exists ua',
    res o1 = Ok ua' /\
    deactivated_users (evs o1) = due /\
    (forall u, In (EvDeactivate u true) (evs o1) -> Dict.get ua' u = None) /\
    (forall u, In (EvDeactivate u false) (evs o1) -> Dict.get ua' u = Dict.get ua u) /\
    (forall now w2,
       let o2 := _update_user_activity_for_network api ua' now w2 in
       exists ua2 due2,
         res o2 = Ok (ua2, due2) /\
         forall w3,
           let o3 := _purge_inactive_users_for_network api ua2 due2 w3 in
           exists ua3,
             res o3 = Ok ua3 /\
             forall u, In (EvDeactivate u true) (evs o1) ->
               ~ In u (probed_users (evs o2)) /\
               ~ In u (deactivated_users (evs o3)) /\
               Dict.get ua3 u = None) /\
    (forall imp g now w',
       ledger_wf g -> res (run_user_purger api imp g now w') <> Raise KeyError).
Proof.
  intros Hwf Hnd Hsub o1.
  destruct (purge_loop_spec api due ua w Hwf Hnd Hsub)
    as (ua' & Hres & Hd & Hwf' & Hok & Hfail & _ & _).
  fold o1 in Hres, Hd, Hok, Hfail.
  exists ua'. do 4 (split; [assumption|]).
  split; [|intros imp g now w'; apply pass_never_raises_KeyError].
  intros now w2 o2.
  destruct (update_for_network_spec api ua' now w2 Hwf')
    as (ua2 & due2 & Hres2 & Hp2 & _ & _ & Hk2 & Hnd2 & Hsub2 & _).
  fold o2 in Hres2, Hp2.
  exists ua2, due2. split; [assumption|].
  intros w3 o3.
  assert (Hwf2 : Dict.wf ua2) by (unfold Dict.wf; now rewrite Hk2).
  destruct (purge_loop_spec api due2 ua2 w3 Hwf2 Hnd2 Hsub2)
    as (ua3 & Hres3 & Hd3 & _ & _ & _ & _ & Hkeys3).
  fold o3 in Hres3, Hd3.
  exists ua3. split; [assumption|].
  intros u Hu. specialize (Hok u Hu).
  assert (Hnot : ~ In u (Dict.keys ua')) by now apply DictFacts.get_None_keys.
  split; [|split].
  - rewrite Hp2. intros H. apply possible_candidates_keys in H. contradiction.
  - rewrite Hd3. intros H. apply Hsub2 in H. rewrite Hk2 in H. contradiction.
  - apply DictFacts.get_None_keys. intros H. apply Hkeys3 in H.
    rewrite Hk2 in H. contradiction.
Qed.

Lemma purge_removes_on_success_and_stays_final_witness :
  exists ua',
    res (_purge_inactive_users_for_network Examples.srv Examples.segment_ex
           ["@A:srv"; "@D:srv"]%string tt) = Ok ua' /\
    Dict.get ua' "@A:srv" = None /\ Dict.get ua' "@D:srv" = Some 20.
Proof.
  destruct (purge_removes_on_success_and_stays_final Examples.srv Examples.segment_ex
              ["@A:srv"; "@D:srv"]%string tt)
    as (ua' & Hres & _ & Hok & Hfail & _).
  - unfold Dict.wf; simpl; solve_NoDup.
  - solve_NoDup.
  - intros u [<-|[<-|[]]]; simpl; auto.
  - exists ua'. split; [exact Hres|]. split.
    + apply Hok. vm_compute. auto.
    + rewrite Hfail; [reflexivity|]. vm_compute. auto.
Defined.
